(** * CLI orchestrator: a shallow embedding of [references/orchestrator_example.py]

    The Python module builds argument vectors for two command-line agents,
    runs them (blocking or under asyncio), classifies the outcome and tries
    to recover a JSON value from the captured standard output.

    Layout of this development:
    - [Py]       Python idioms used by the module (truthiness, [or], [str()]);
    - [Json]     the value type and the reader behind [json.loads];
    - [Re]       the backtracking matcher behind [re.findall];
    - [Os]       the process world: clock, one child process, exceptions;
    - the orchestrator itself, with the names of the source;
    - [Sched]    the asyncio semaphore / gather interleavings;
    - the properties.

    Text is modelled by [string]: a sequence of code points below 256. *)

From Stdlib Require Import ZArith Lia Bool Ascii String List.
From Stdlib Require Import DecimalString DecimalFacts DecimalPos.
From stdpp Require Import base option list.
Import ListNotations.

Local Open Scope string_scope.
Local Open Scope Z_scope.
Local Open Scope list_scope.

(** ** Python idioms *)

Module Py.

(** [not s] for a [str]. *)
Definition str_falsy (s : string) : bool :=
  match s with EmptyString => true | String _ _ => false end.

(** [a or b] where [a : str | None]. *)
Definition or_str (a : option string) (b : string) : string :=
  match a with
  | Some s => if str_falsy s then b else s
  | None => b
  end.

(** [a or b] where [a : int | None]. *)
Definition or_int (a : option Z) (b : Z) : Z :=
  match a with
  | Some n => if n =? 0 then b else n
  | None => b
  end.

(** [a or b] where [a : list | None]. *)
Definition or_list {A} (a : option (list A)) (b : list A) : list A :=
  match a with
  | Some (x :: l) => x :: l
  | Some [] | None => b
  end.

(** [if v: th(v) else: el] for [v : str | None]. *)
Definition if_str {A} (v : option string) (th : string -> A) (el : A) : A :=
  match v with
  | Some s => if str_falsy s then el else th s
  | None => el
  end.

(** [if v: th(v) else: el] for [v : list | None]. *)
Definition if_list {A B} (v : option (list A)) (th : list A -> B) (el : B) : B :=
  match v with
  | Some (x :: l) => th (x :: l)
  | Some [] | None => el
  end.

(** A value of type [str | Path]; [str()] of either is its text. *)
Inductive StrOrPath :=
| AStr (s : string)
| APath (p : string).

Definition str (d : StrOrPath) : string :=
  match d with AStr s => s | APath p => p end.

(** [str(d) if d else None] for [d : Path | str | None]: a [Path] is always
    truthy, a [str] when it is not empty. *)
Definition str_if_truthy (d : option StrOrPath) : option string :=
  match d with
  | Some (AStr s) => if str_falsy s then None else Some s
  | Some (APath p) => Some p
  | None => None
  end.

(** [str(n)] and [f"{n}"] for an [int]. *)
Definition str_of_int (n : Z) : string := NilZero.string_of_int (Z.to_int n).

(** [cmd.extend(xs)] and [cmd.append(x)]. *)
Definition extend (cmd xs : list string) : list string := cmd ++ xs.
Definition append (cmd : list string) (x : string) : list string := cmd ++ [x].

(** [for x in xs: cmd.extend([flag, f(x)])]. *)
Definition extend_each {A} (flag : string) (f : A -> string)
    (xs : list A) (cmd : list string) : list string :=
  fold_left (fun acc x => extend acc [flag; f x]) xs cmd.

End Py.

(** ** Data model *)

Inductive InvocationStatus := SUCCESS | FAILED | TIMEOUT | FALLBACK.

Definition InvocationStatus_value (s : InvocationStatus) : string :=
  match s with
  | SUCCESS => "success"
  | FAILED => "failed"
  | TIMEOUT => "timeout"
  | FALLBACK => "fallback"
  end.

(** ** [CLIOrchestrator.build_command] *)

(** The line feed. *)
Definition nl : ascii := ascii_of_N 10.

Definition build_command
    (tool : string) (prompt : string)
    (model : option string)
    (allowed_tools : option (list string))
    (add_dirs : option (list Py.StrOrPath))
    (settings_json : option string)
    (enable_sandbox : bool) : list string * option string :=
  let stdin_content : option string := None in
  if String.eqb tool "opencode" then
    let cmd := ["opencode"; "run"] in
    let cmd := Py.if_str model (fun m => Py.extend cmd ["--model"; m]) cmd in
    let cmd := Py.append cmd prompt in
    (cmd, stdin_content)
  else
    let cmd := ["claude"] in
    let cmd := Py.if_str model (fun m => Py.extend cmd ["--model"; m]) cmd in
    let cmd := Py.if_str settings_json (fun s => Py.extend cmd ["--settings"; s]) cmd in
    let cmd :=
      Py.if_list add_dirs (fun ds => Py.extend_each "--add-dir" Py.str ds cmd) cmd in
    let cmd :=
      Py.if_list allowed_tools
        (fun ts => Py.extend_each "--allowedTools" id ts cmd) cmd in
    if enable_sandbox then
      let cmd := Py.append cmd "-p" in
      let stdin_content := Some (String.append "/sandbox" (String nl prompt)) in
      (cmd, stdin_content)
    else
      let cmd := Py.extend cmd ["-p"; prompt] in
      (cmd, stdin_content).

(** ** [json.loads]

    The reader follows CPython's [json.decoder] / [json.scanner]: leading and
    trailing whitespace is skipped, one value is scanned, and anything left
    over is an error ("Extra data").  [None] stands for [JSONDecodeError].

    A Python value produced by the reader is a [Json.value]; Python's [None]
    is [Json.Null].  A [float] is kept as the numeral it was read from
    (Python computes [float(numeral)]); a [str] is its list of code points;
    a [dict] is its list of items in insertion order. *)

Module Json.

#[local] Set Warnings "-register-all".

Inductive value :=
| Null
| Bool (b : bool)
| Int (n : Z)
| Float (numeral : string)
| Str (s : list N)
| Arr (items : list value)
| Obj (items : list (list N * value)).

Definition code (c : ascii) : N := N_of_ascii c.

Definition quote : ascii := ascii_of_N 34.
Definition backslash : ascii := ascii_of_N 92.

Definition in_range (lo hi : N) (c : ascii) : bool :=
  ((lo <=? code c) && (code c <=? hi))%N.

(** [WHITESPACE]: any run of space, tab, line feed, carriage return. *)
Definition is_ws (c : ascii) : bool :=
  let n := code c in ((n =? 32) || (n =? 9) || (n =? 10) || (n =? 13))%N.

Fixpoint skip_ws (s : string) : string :=
  match s with
  | String c r => if is_ws c then skip_ws r else s
  | EmptyString => s
  end.

Definition is_digit (c : ascii) : bool := in_range 48 57 c.

Fixpoint take_digits (s : string) : string * string :=
  match s with
  | String c r =>
      if is_digit c then let '(ds, r') := take_digits r in (String c ds, r')
      else (EmptyString, s)
  | EmptyString => (EmptyString, s)
  end.

(** [int(digits)] for a run of decimal digits. *)
Fixpoint int_of_digits (acc : Z) (ds : string) : Z :=
  match ds with
  | String c r => int_of_digits (10 * acc + (Z.of_N (code c) - 48)) r
  | EmptyString => acc
  end.

(** [s[idx:idx+len(p)] == p]; the text after [p] when it is there. *)
Fixpoint strip_prefix (p s : string) : option string :=
  match p, s with
  | EmptyString, _ => Some s
  | String a p', String b s' => if Ascii.eqb a b then strip_prefix p' s' else None
  | String _ _, EmptyString => None
  end.

(** [NUMBER_RE]: an optional minus sign, then 0 or a run of digits that
    does not start with 0; an optional fraction (a dot and at least one
    digit); an optional exponent (e or E, an optional sign, at least one
    digit).  Then [int(integer)] or [float(integer + frac + exp)]. *)
Definition scan_frac (s : string) : string * string :=
  match s with
  | String c r =>
      if Ascii.eqb c "." then
        match take_digits r with
        | (String d ds, r') => (String c (String d ds), r')
        | (EmptyString, _) => (EmptyString, s)
        end
      else (EmptyString, s)
  | EmptyString => (EmptyString, s)
  end.

Definition scan_exp (s : string) : string * string :=
  match s with
  | String e r =>
      if Ascii.eqb e "e" || Ascii.eqb e "E" then
        let '(sign, r1) :=
          match r with
          | String g r' =>
              if Ascii.eqb g "-" || Ascii.eqb g "+"
              then (String g EmptyString, r') else (EmptyString, r)
          | EmptyString => (EmptyString, r)
          end in
        match take_digits r1 with
        | (String d ds, r2) => (String e (String.append sign (String d ds)), r2)
        | (EmptyString, _) => (EmptyString, s)
        end
      else (EmptyString, s)
  | EmptyString => (EmptyString, s)
  end.

Definition scan_integer (s : string) : option (string * string) :=
  match s with
  | String c r =>
      if Ascii.eqb c "0" then Some (String c EmptyString, r)
      else if in_range 49 57 c then
        let '(ds, r') := take_digits r in Some (String c ds, r')
      else None
  | EmptyString => None
  end.

(** The number that starts at [s], [neg] telling whether a minus sign was
    read before it. *)
Definition scan_unsigned (neg : bool) (s : string) : option (value * string) :=
  match scan_integer s with
  | Some (digits, r) =>
      let '(frac, r1) := scan_frac r in
      let '(exp, r2) := scan_exp r1 in
      let sign := if neg then "-" else EmptyString in
      match frac, exp with
      | EmptyString, EmptyString =>
          let n := int_of_digits 0 digits in
          Some (Int (if neg then - n else n), r2)
      | _, _ =>
          Some (Float (String.append sign
                         (String.append digits (String.append frac exp))), r2)
      end
  | None => None
  end.

Definition scan_number (s : string) : option (value * string) :=
  match s with
  | String c r => if Ascii.eqb c "-" then scan_unsigned true r else scan_unsigned false s
  | EmptyString => None
  end.

(** [\uXXXX]: four hexadecimal digits. *)
Definition hex_digit (c : ascii) : option N :=
  if in_range 48 57 c then Some (code c - 48)%N
  else if in_range 97 102 c then Some (code c - 87)%N
  else if in_range 65 70 c then Some (code c - 55)%N
  else None.

Definition hex4 (a b c d : ascii) : option N :=
  match hex_digit a, hex_digit b, hex_digit c, hex_digit d with
  | Some x, Some y, Some z, Some w => Some (((x * 16 + y) * 16 + z) * 16 + w)%N
  | _, _, _, _ => None
  end.

(** The [BACKSLASH] table of [json.decoder]. *)
Definition unescape (e : ascii) : option N :=
  if Ascii.eqb e quote then Some 34%N
  else if Ascii.eqb e backslash then Some 92%N
  else if Ascii.eqb e "/" then Some 47%N
  else if Ascii.eqb e "b" then Some 8%N
  else if Ascii.eqb e "f" then Some 12%N
  else if Ascii.eqb e "n" then Some 10%N
  else if Ascii.eqb e "r" then Some 13%N
  else if Ascii.eqb e "t" then Some 9%N
  else None.

Definition is_high_surrogate (u : N) : bool := ((55296 <=? u) && (u <=? 56319))%N.
Definition is_low_surrogate (u : N) : bool := ((56320 <=? u) && (u <=? 57343))%N.
Definition join_surrogates (hi lo : N) : N :=
  (65536 + N.lor (N.shiftl (hi - 55296) 10) (lo - 56320))%N.

Definition cons_fst {A B} (a : A) (r : option (list A * B)) : option (list A * B) :=
  match r with Some (l, b) => Some (a :: l, b) | None => None end.

(** [py_scanstring] with [strict=True]; [s] starts after the opening quote. *)
Fixpoint scanstring (s : string) : option (list N * string) :=
  match s with
  | EmptyString => None
  | String c r =>
      if Ascii.eqb c quote then Some ([], r)
      else if Ascii.eqb c backslash then
        match r with
        | EmptyString => None
        | String e r2 =>
            if Ascii.eqb e "u" then
              match r2 with
              | String h1 (String h2 (String h3 (String h4 r3))) =>
                  match hex4 h1 h2 h3 h4 with
                  | None => None
                  | Some uni =>
                      if is_high_surrogate uni then
                        match r3 with
                        | String b (String u (String g1 (String g2 (String g3 (String g4 r5))))) =>
                            if Ascii.eqb b backslash && Ascii.eqb u "u" then
                              match hex4 g1 g2 g3 g4 with
                              | None => None
                              | Some uni2 =>
                                  if is_low_surrogate uni2
                                  then cons_fst (join_surrogates uni uni2) (scanstring r5)
                                  else cons_fst uni (scanstring r3)
                              end
                            else cons_fst uni (scanstring r3)
                        | String b (String u _) =>
                            if Ascii.eqb b backslash && Ascii.eqb u "u" then None
                            else cons_fst uni (scanstring r3)
                        | _ => cons_fst uni (scanstring r3)
                        end
                      else cons_fst uni (scanstring r3)
                  end
              | _ => None
              end
            else
              match unescape e with
              | Some ch => cons_fst ch (scanstring r2)
              | None => None
              end
        end
      else if (code c <? 32)%N then None
      else cons_fst (code c) (scanstring r)
  end.

(** [dict(pairs)]: a later item with the same key replaces the value and
    keeps the place of the first. *)
Fixpoint dict_set (k : list N) (v : value) (d : list (list N * value)) :=
  match d with
  | [] => [(k, v)]
  | (k', v') :: d' =>
      if bool_decide (k = k') then (k, v) :: d' else (k', v') :: dict_set k v d'
  end.

Definition dict (pairs : list (list N * value)) : list (list N * value) :=
  fold_left (fun d kv => dict_set (fst kv) (snd kv) d) pairs [].

(** [scan_once], [JSONArray] and [JSONObject].  [fuel] bounds the nesting
    and the number of items; [loads] supplies enough for the whole text. *)
Fixpoint scan_once (fuel : nat) (s : string) {struct fuel} : option (value * string) :=
  match fuel with
  | O => None
  | S f =>
      match s with
      | EmptyString => None
      | String c r =>
          if Ascii.eqb c quote then
            match scanstring r with
            | Some (cps, r') => Some (Str cps, r')
            | None => None
            end
          else if Ascii.eqb c "{" then
            match skip_ws r with
            | String c1 r1 =>
                if Ascii.eqb c1 "}" then Some (Obj [], r1)
                else if Ascii.eqb c1 quote then
                  match object_items f r1 with
                  | Some (pairs, r') => Some (Obj (dict pairs), r')
                  | None => None
                  end
                else None
            | EmptyString => None
            end
          else if Ascii.eqb c "[" then
            match skip_ws r with
            | String c1 r1 =>
                if Ascii.eqb c1 "]" then Some (Arr [], r1)
                else
                  match array_items f (String c1 r1) with
                  | Some (vs, r') => Some (Arr vs, r')
                  | None => None
                  end
            | EmptyString => None
            end
          else
            match strip_prefix "null" s, strip_prefix "true" s, strip_prefix "false" s with
            | Some r', _, _ => Some (Null, r')
            | _, Some r', _ => Some (Bool true, r')
            | _, _, Some r' => Some (Bool false, r')
            | None, None, None =>
                match scan_number s with
                | Some res => Some res
                | None =>
                    match strip_prefix "NaN" s, strip_prefix "Infinity" s,
                          strip_prefix "-Infinity" s with
                    | Some r', _, _ => Some (Float "nan", r')
                    | _, Some r', _ => Some (Float "inf", r')
                    | _, _, Some r' => Some (Float "-inf", r')
                    | None, None, None => None
                    end
                end
            end
      end
  end

with array_items (fuel : nat) (s : string) {struct fuel} : option (list value * string) :=
  match fuel with
  | O => None
  | S f =>
      match scan_once f s with
      | None => None
      | Some (v, r) =>
          match skip_ws r with
          | String c r1 =>
              if Ascii.eqb c "]" then Some ([v], r1)
              else if Ascii.eqb c "," then
                cons_fst v (array_items f (skip_ws r1))
              else None
          | EmptyString => None
          end
      end
  end

with object_items (fuel : nat) (s : string) {struct fuel}
    : option (list (list N * value) * string) :=
  match fuel with
  | O => None
  | S f =>
      match scanstring s with
      | None => None
      | Some (k, r) =>
          match skip_ws r with
          | String c r1 =>
              if Ascii.eqb c ":" then
                match scan_once f (skip_ws r1) with
                | None => None
                | Some (v, r2) =>
                    match skip_ws r2 with
                    | String c2 r3 =>
                        if Ascii.eqb c2 "}" then Some ([(k, v)], r3)
                        else if Ascii.eqb c2 "," then
                          match skip_ws r3 with
                          | String c3 r4 =>
                              if Ascii.eqb c3 quote
                              then cons_fst (k, v) (object_items f r4)
                              else None
                          | EmptyString => None
                          end
                        else None
                    | EmptyString => None
                    end
                end
              else None
          | EmptyString => None
          end
      end
  end.

(** [json.loads(s)] for a [str]. *)
Definition loads (s : string) : option value :=
  let s := skip_ws s in
  match scan_once (2 * String.length s + 2) s with
  | Some (v, r) =>
      match skip_ws r with
      | EmptyString => Some v
      | String _ _ => None
      end
  | None => None
  end.

(** *** [json.dumps]

    The writer with its default settings: items separated by a comma and a
    space, keys from values by a colon and a space, and every character
    outside the printable ASCII range escaped ([ensure_ascii=True]). *)

(** [format(d, 'x')] for one hexadecimal digit. *)
Definition hex_char (d : N) : ascii :=
  if (d <? 10)%N then ascii_of_N (48 + d) else ascii_of_N (87 + d).

(** [format(n, '04x')] for [n] below 65536. *)
Definition hex4s (n : N) : string :=
  String (hex_char (n / 4096))
    (String (hex_char ((n / 256) mod 16))
      (String (hex_char ((n / 16) mod 16))
        (String (hex_char (n mod 16)) EmptyString))).

Definition uescape (n : N) : string :=
  String backslash (String "u" (hex4s n)).

(** [ESCAPE_ASCII] with the table [ESCAPE_DCT] and, for the other
    characters, the escape of the code unit or of the surrogate pair. *)
Definition escape (n : N) : string :=
  if (n =? 34)%N then String backslash (String quote EmptyString)
  else if (n =? 92)%N then String backslash (String backslash EmptyString)
  else if (n =? 10)%N then String backslash "n"
  else if (n =? 13)%N then String backslash "r"
  else if (n =? 9)%N then String backslash "t"
  else if (n =? 12)%N then String backslash "f"
  else if (n =? 8)%N then String backslash "b"
  else if ((32 <=? n) && (n <=? 126))%N then String (ascii_of_N n) EmptyString
  else if (n <? 65536)%N then uescape n
  else
    let n' := (n - 65536)%N in
    let s1 := N.lor 55296 (N.land (N.shiftr n' 10) 1023) in
    let s2 := N.lor 56320 (N.land n' 1023) in
    String.append (uescape s1) (uescape s2).

Fixpoint escape_all (s : list N) : string :=
  match s with
  | [] => EmptyString
  | n :: s' => String.append (escape n) (escape_all s')
  end.

Definition encode_string (s : list N) : string :=
  String quote (String.append (escape_all s) (String quote EmptyString)).

(** [float.__repr__]: the numeral of the float, and the three names. *)
Definition float_repr (numeral : string) : string :=
  if String.eqb numeral "nan" then "NaN"
  else if String.eqb numeral "inf" then "Infinity"
  else if String.eqb numeral "-inf" then "-Infinity"
  else numeral.

Fixpoint dumps (v : value) : string :=
  match v with
  | Null => "null"
  | Bool true => "true"
  | Bool false => "false"
  | Int n => Py.str_of_int n
  | Float numeral => float_repr numeral
  | Str s => encode_string s
  | Arr [] => "[]"
  | Arr (v1 :: vs) =>
      String "[" (String.append (dumps v1)
        ((fix more (l : list value) : string :=
            match l with
            | [] => "]"
            | v2 :: l' => String.append ", " (String.append (dumps v2) (more l'))
            end) vs))
  | Obj [] => "{}"
  | Obj ((k1, v1) :: kvs) =>
      String "{" (String.append (encode_string k1)
        (String.append ": " (String.append (dumps v1)
          ((fix more (l : list (list N * value)) : string :=
              match l with
              | [] => "}"
              | (k2, v2) :: l' =>
                  String.append ", " (String.append (encode_string k2)
                    (String.append ": " (String.append (dumps v2) (more l'))))
              end) kvs))))
  end.

(** *** Well-formed values

    The values a JSON text denotes: a float is written by a number with a
    fraction or an exponent, a string is a sequence of Unicode scalar values
    (no surrogate code points), and the keys of an object are distinct. *)

Definition is_float_literal (numeral : string) : bool :=
  match scan_number numeral with
  | Some (Float s, EmptyString) => String.eqb s numeral
  | _ => false
  end.

Definition is_scalar (n : N) : bool :=
  ((n <? 55296) || ((57343 <? n) && (n <? 1114112)))%N.

Fixpoint distinct (ks : list (list N)) : bool :=
  match ks with
  | [] => true
  | k :: ks' => negb (existsb (fun k' => bool_decide (k = k')) ks') && distinct ks'
  end.

Fixpoint well_formed (v : value) : bool :=
  match v with
  | Null | Bool _ | Int _ => true
  | Float numeral => is_float_literal numeral
  | Str s => forallb is_scalar s
  | Arr items => forallb well_formed items
  | Obj items =>
      distinct (map fst items)
      && forallb (fun kv => forallb is_scalar (fst kv)) items
      && (fix all (l : list (list N * value)) : bool :=
            match l with
            | [] => true
            | (_, v1) :: l' => well_formed v1 && all l'
            end) items
  end.

(** *** Reading back what was written

    The vocabulary of the round trip: what may follow a value, how a value
    starts, the fuel it needs, the text after the first item of an array or
    of an object, and the induction principle that reaches the items. *)

(** What may follow a value in a text written by [dumps]. *)
Definition ends_value (rest : string) : bool :=
  match rest with
  | EmptyString => true
  | String c _ => Ascii.eqb c "," || Ascii.eqb c "]" || Ascii.eqb c "}"
  end.

(** A decimal numeral with a first digit other than 0. *)
Definition starts_nonzero (d : Decimal.uint) : Prop :=
  match d with
  | Decimal.Nil | Decimal.D0 _ => False
  | _ => True
  end.

(** The fuel [scan_once] needs to read a value back. *)
Fixpoint need (v : value) : nat :=
  match v with
  | Arr items =>
      S ((fix sum (l : list value) : nat :=
            match l with
            | [] => O
            | v1 :: l' => S (need v1 + sum l')
            end) items)
  | Obj items =>
      S ((fix sum (l : list (list N * value)) : nat :=
            match l with
            | [] => O
            | (_, v1) :: l' => S (need v1 + sum l')
            end) items)
  | _ => 1%nat
  end.

Fixpoint items_need (l : list value) : nat :=
  match l with
  | [] => O
  | v1 :: l' => S (need v1 + items_need l')
  end.

Fixpoint pairs_need (l : list (list N * value)) : nat :=
  match l with
  | [] => O
  | (_, v1) :: l' => S (need v1 + pairs_need l')
  end.

(** The text [dumps] writes after the first item of an array or object. *)
Fixpoint arr_more (l : list value) : string :=
  match l with
  | [] => "]"
  | v2 :: l' => String.append ", " (String.append (dumps v2) (arr_more l'))
  end.

Fixpoint obj_more (l : list (list N * value)) : string :=
  match l with
  | [] => "}"
  | (k2, v2) :: l' =>
      String.append ", " (String.append (encode_string k2)
        (String.append ": " (String.append (dumps v2) (obj_more l'))))
  end.

Fixpoint pairs_well_formed (l : list (list N * value)) : bool :=
  match l with
  | [] => true
  | (_, v1) :: l' => well_formed v1 && pairs_well_formed l'
  end.

(** Induction on values, with the items of arrays and objects. *)
Fixpoint value_ind' (P : value -> Prop)
    (HNull : P Null) (HBool : forall b, P (Bool b)) (HInt : forall n, P (Int n))
    (HFloat : forall s, P (Float s)) (HStr : forall s, P (Str s))
    (HArr : forall items, Forall P items -> P (Arr items))
    (HObj : forall items, Forall (fun kv => P (snd kv)) items -> P (Obj items))
    (v : value) : P v :=
  match v with
  | Null => HNull
  | Bool b => HBool b
  | Int n => HInt n
  | Float s => HFloat s
  | Str s => HStr s
  | Arr items =>
      HArr items
        ((fix all (l : list value) : Forall P l :=
            match l with
            | [] => @List.Forall_nil _ P
            | v1 :: l' =>
                @List.Forall_cons _ P v1 l'
                  (value_ind' P HNull HBool HInt HFloat HStr HArr HObj v1) (all l')
            end) items)
  | Obj items =>
      HObj items
        ((fix all (l : list (list N * value)) : Forall (fun kv => P (snd kv)) l :=
            match l with
            | [] => @List.Forall_nil _ _
            | (k1, v1) :: l' =>
                @List.Forall_cons _ (fun kv => P (snd kv)) (k1, v1) l'
                  (value_ind' P HNull HBool HInt HFloat HStr HArr HObj v1) (all l')
            end) items)
  end.

(** The first character of a written value: not whitespace, not a closing
    bracket. *)
Definition starts_value (s : string) : Prop :=
  exists c r, s = String c r /\ is_ws c = false /\ Ascii.eqb c "]" = false.

(** The reader's contract for one value, as used for the items. *)
Definition reads_back (v : value) : Prop :=
  well_formed v = true ->
  forall (fuel : nat) (rest : string),
    (need v <= fuel)%nat -> ends_value rest = true ->
    scan_once fuel (String.append (dumps v) rest) = Some (v, rest).

(** The text of one item of an object, after its opening quote. *)
Definition pair_text (k : list N) (v : value) (tail : string) : string :=
  String.append (escape_all k)
    (String quote (String ":" (String " " (String.append (dumps v) tail)))).

Definition fuel_bound (v : value) : Prop :=
  well_formed v = true -> (need v <= 2 * String.length (dumps v))%nat.

End Json.

(** ** [re.findall]

    A backtracking matcher with the priorities of Python's [re]: a greedy
    quantifier first tries to take more, a lazy one first tries to stop.
    [findall] scans left to right, resumes after each match, and returns the
    text of the last group closed in each match (the patterns below have
    exactly one). *)

Module Re.

Inductive regex :=
| Eps
| Chr (c : ascii)
| Seq (r1 r2 : regex)
| Opt (r : regex)
| Star (p : ascii -> bool)
| StarLazy (p : ascii -> bool)
| Group (r : regex).

Fixpoint lit (s : string) : regex :=
  match s with
  | EmptyString => Eps
  | String c r => Seq (Chr c) (lit r)
  end.

(** [\s] on text: what [str.isspace] accepts below code point 256. *)
Definition is_space (c : ascii) : bool :=
  let n := N_of_ascii c in
  ((9 <=? n) && (n <=? 13) || (28 <=? n) && (n <=? 32) || (n =? 133) || (n =? 160))%N.

(** [[\s\S]] *)
Definition any (c : ascii) : bool := true.

Section Matcher.
Context {A : Type}.

Fixpoint star_greedy (p : ascii -> bool) (k : string -> option A) (s : string) : option A :=
  match s with
  | String c r =>
      if p c then
        match star_greedy p k r with
        | Some x => Some x
        | None => k s
        end
      else k s
  | EmptyString => k s
  end.

Fixpoint star_lazy (p : ascii -> bool) (k : string -> option A) (s : string) : option A :=
  match k s with
  | Some x => Some x
  | None =>
      match s with
      | String c r => if p c then star_lazy p k r else None
      | EmptyString => None
      end
  end.

(** The text of [s] consumed before [rest], a suffix of [s]. *)
Definition consumed (s rest : string) : string :=
  substring 0 (String.length s - String.length rest) s.

Fixpoint run (r : regex) (s : string) (cap : string)
    (k : string -> string -> option A) : option A :=
  match r with
  | Eps => k s cap
  | Chr c =>
      match s with
      | String c' s' => if Ascii.eqb c c' then k s' cap else None
      | EmptyString => None
      end
  | Seq r1 r2 => run r1 s cap (fun s' cap' => run r2 s' cap' k)
  | Opt r1 =>
      match run r1 s cap k with
      | Some x => Some x
      | None => k s cap
      end
  | Star p => star_greedy p (fun s' => k s' cap) s
  | StarLazy p => star_lazy p (fun s' => k s' cap) s
  | Group r1 => run r1 s cap (fun s' _ => k s' (consumed s s'))
  end.
End Matcher.

(** A match at the start of [s]: the group's text and the text left. *)
Definition match_at (r : regex) (s : string) : option (string * string) :=
  run r s EmptyString (fun rest cap => Some (cap, rest)).

Fixpoint findall_from (fuel : nat) (r : regex) (s : string) : list string :=
  match fuel with
  | O => []
  | S f =>
      match match_at r s with
      | Some (cap, rest) =>
          if (String.length rest <? String.length s)%nat
          then cap :: findall_from f r rest
          else
            match s with
            | String _ s' => cap :: findall_from f r s'
            | EmptyString => [cap]
            end
      | None =>
          match s with
          | String _ s' => findall_from f r s'
          | EmptyString => []
          end
      end
  end.

Definition findall (r : regex) (s : string) : list string :=
  findall_from (S (String.length s)) r s.

(** [str.strip()] *)
Fixpoint lstrip (s : string) : string :=
  match s with
  | String c r => if is_space c then lstrip r else s
  | EmptyString => s
  end.

Fixpoint rstrip (s : string) : string :=
  match s with
  | String c r =>
      match rstrip r with
      | EmptyString => if is_space c then EmptyString else String c EmptyString
      | r' => String c r'
      end
  | EmptyString => s
  end.

Definition strip (s : string) : string := rstrip (lstrip s).

End Re.

(** The three patterns of [extract_json_from_output]: a fenced block with an
    optional [json] tag, then the greedy brace and bracket spans. *)
Definition fence_pattern : Re.regex :=
  Re.Seq (Re.lit "```")
    (Re.Seq (Re.Opt (Re.lit "json"))
      (Re.Seq (Re.Star Re.is_space)
        (Re.Seq (Re.Chr nl)
          (Re.Seq (Re.Group (Re.StarLazy Re.any))
            (Re.Seq (Re.Chr nl) (Re.lit "```")))))).

Definition brace_pattern : Re.regex :=
  Re.Group (Re.Seq (Re.Chr "{") (Re.Seq (Re.Star Re.any) (Re.Chr "}"))).

Definition bracket_pattern : Re.regex :=
  Re.Group (Re.Seq (Re.Chr "[") (Re.Seq (Re.Star Re.any) (Re.Chr "]"))).

(** ** [CLIOrchestrator.extract_json_from_output]

    [for match in matches: try: return json.loads(f(match)) except: continue] *)
Fixpoint first_loads (f : string -> string) (matches : list string) : option Json.value :=
  match matches with
  | [] => None
  | m :: rest =>
      match Json.loads (f m) with
      | Some v => Some v
      | None => first_loads f rest
      end
  end.

Definition extract_json_from_output (output : string) : Json.value :=
  if Py.str_falsy output then Json.Null
  else
    match Json.loads output with
    | Some v => v
    | None =>
        match first_loads Re.strip (Re.findall fence_pattern output) with
        | Some v => v
        | None =>
            match first_loads id (Re.findall brace_pattern output) with
            | Some v => v
            | None =>
                match first_loads id (Re.findall bracket_pattern output) with
                | Some v => v
                | None => Json.Null
                end
            end
        end
    end.

(** ** The process world

    One invocation starts at most one child process.  What the child does is
    given by a [Child]: whether it can be started at all, after how long it
    exits (never, for [None]), its exit status and what it writes.  When the
    child is cut short, [stdout] is what it had written by then.

    The world threads a clock (milliseconds), the state of the child, the
    log of process creations and the bytes sent to its standard input.
    Computations are state-passing functions that return a value or raise. *)

Module Os.

Record Child := {
  spawnable : bool;
  runtime_ms : option Z;
  exit_code : Z;
  stdout : string;
  stderr : string;
}.

Inductive ProcState :=
| NotStarted
| Running
| Reaped (returncode : Z).

Record Spawn := {
  argv : list string;
  cwd : option string;
  stdin_piped : bool;
}.

Record World := {
  clock_ms : Z;
  child : Child;
  proc : ProcState;
  spawned : list Spawn;
  stdin_sent : option string;
  stdin_closed : bool;
}.

Inductive Exn :=
| TimeoutExpired (partial_stdout : string)
| TimeoutError
| OSError
| ValueError.

Inductive Outcome (A : Type) :=
| Return (a : A)
| Raise (e : Exn).
Arguments Return {A} a.
Arguments Raise {A} e.

Definition M (A : Type) : Type := World -> Outcome A * World.

Definition ret {A} (a : A) : M A := fun w => (Return a, w).

Definition raise {A} (e : Exn) : M A := fun w => (Raise e, w).

Definition bind {A B} (m : M A) (k : A -> M B) : M B :=
  fun w =>
    match m w with
    | (Return a, w') => k a w'
    | (Raise e, w') => (Raise e, w')
    end.

(** [try: body except ...: handler]; a [None] handler lets [e] through. *)
Definition try_except {A} (body : M A) (handler : Exn -> option (M A)) : M A :=
  fun w =>
    match body w with
    | (Return a, w') => (Return a, w')
    | (Raise e, w') =>
        match handler e with
        | Some h => h w'
        | None => (Raise e, w')
        end
    end.

Definition tick (d : Z) (w : World) : World :=
  {| clock_ms := clock_ms w + Z.max 0 d; child := child w; proc := proc w;
     spawned := spawned w; stdin_sent := stdin_sent w;
     stdin_closed := stdin_closed w |}.

Definition set_proc (p : ProcState) (w : World) : World :=
  {| clock_ms := clock_ms w; child := child w; proc := p;
     spawned := spawned w; stdin_sent := stdin_sent w;
     stdin_closed := stdin_closed w |}.

Definition log_spawn (sp : Spawn) (w : World) : World :=
  {| clock_ms := clock_ms w; child := child w; proc := Running;
     spawned := spawned w ++ [sp]; stdin_sent := stdin_sent w;
     stdin_closed := stdin_closed w |}.

Definition send_stdin (data : string) (w : World) : World :=
  {| clock_ms := clock_ms w; child := child w; proc := proc w;
     spawned := spawned w;
     stdin_sent := Some (String.append (default EmptyString (stdin_sent w)) data);
     stdin_closed := stdin_closed w |}.

Definition close_stdin (w : World) : World :=
  {| clock_ms := clock_ms w; child := child w; proc := proc w;
     spawned := spawned w; stdin_sent := stdin_sent w;
     stdin_closed := true |}.

(** Does the child exit within [timeout] seconds? *)
Definition exits_within (c : Child) (timeout : Z) : bool :=
  match runtime_ms c with
  | Some r => r <=? timeout * 1000
  | None => false
  end.

(** [time.time()], read in milliseconds: the source computes
    [int((time.time() - start_time) * 1000)], here [now - start_time]. *)
Definition time_time : M Z := fun w => (Return (clock_ms w), w).

(** The exit status of a child killed with SIGKILL. *)
Definition killed : Z := -9.

Record CompletedProcess := {
  cp_returncode : Z;
  cp_stdout : string;
  cp_stderr : string;
}.

(** [subprocess.run(cmd, capture_output=True, text=True, timeout=..,
    cwd=.., input=..)].  On expiry the library kills the child, waits for
    it and raises [TimeoutExpired] carrying the output read so far. *)
Definition subprocess_run (cmd : list string) (timeout : Z)
    (working_dir : option string) (input : option string) : M CompletedProcess :=
  fun w =>
    let c := child w in
    if spawnable c then
      let w := log_spawn {| argv := cmd; cwd := working_dir;
                            stdin_piped := bool_decide (input <> None) |} w in
      let w := match input with
               | Some data => close_stdin (send_stdin data w)
               | None => w
               end in
      if exits_within c timeout then
        (Return {| cp_returncode := exit_code c; cp_stdout := stdout c;
                   cp_stderr := stderr c |},
         set_proc (Reaped (exit_code c)) (tick (default 0 (runtime_ms c)) w))
      else
        (Raise (TimeoutExpired (stdout c)),
         set_proc (Reaped killed) (tick (timeout * 1000) w))
    else (Raise OSError, w).

(** The handle returned by [asyncio.create_subprocess_exec]; [stdin] is
    [None] unless a pipe was asked for. *)
Record Process := { has_stdin : bool }.

Definition create_subprocess_exec (cmd : list string) (stdin_pipe : bool)
    (working_dir : option string) : M Process :=
  fun w =>
    if spawnable (child w) then
      (Return {| has_stdin := stdin_pipe |},
       log_spawn {| argv := cmd; cwd := working_dir; stdin_piped := stdin_pipe |} w)
    else (Raise OSError, w).

Definition stdin_write (data : string) : M unit :=
  fun w => (Return tt, send_stdin data w).
Definition stdin_drain : M unit := ret tt.
Definition stdin_close : M unit := fun w => (Return tt, close_stdin w).

(** [await asyncio.wait_for(process.communicate(), timeout=timeout)].
    [communicate] reads both pipes to the end and waits for the child.
    On expiry [wait_for] cancels that wait and raises [TimeoutError]
    (Python 3.11 and later); the child itself is left as it is. *)
Definition wait_for_communicate (timeout : Z) : M (string * string) :=
  fun w =>
    let c := child w in
    if exits_within c timeout then
      (Return (stdout c, stderr c),
       set_proc (Reaped (exit_code c)) (tick (default 0 (runtime_ms c)) w))
    else (Raise TimeoutError, tick (timeout * 1000) w).

(** [process.returncode]: [None] until the child has been waited for. *)
Definition process_returncode : M (option Z) :=
  fun w =>
    (Return match proc w with Reaped rc => Some rc | _ => None end, w).

(** [b.decode(utf-8)]: captured bytes are modelled by their text. *)
Definition decode (b : string) : string := b.

Definition fresh (c : Child) (now : Z) : World :=
  {| clock_ms := now; child := c; proc := NotStarted; spawned := [];
     stdin_sent := None; stdin_closed := false |}.

Definition is_running (w : World) : bool :=
  match proc w with Running => true | _ => false end.

End Os.

Notation "x <- m ;; k" := (Os.bind m (fun x => k))
  (at level 62, m at next level, right associativity).
Notation "m ;;; k" := (Os.bind m (fun _ => k))
  (at level 62, right associativity).

(** ** Results and the orchestrator object *)

Record CLIInvocationResult := {
  status : InvocationStatus;
  tool : string;
  output : string;
  parsed_json : Json.value;
  duration_ms : Z;
  returncode : Z;
  error : option string;
  fallback_used : bool;
  command : list string;
}.

(** The defaults of the dataclass fields. *)
Definition parsed_json_default : Json.value := Json.Null.
Definition duration_ms_default : Z := 0.
Definition returncode_default : Z := 0.
Definition error_default : option string := None.
Definition fallback_used_default : bool := false.
Definition command_default : list string := [].

Record CLIOrchestrator := {
  primary_cli : string;
  fallback_cli : option string;
  default_timeout : Z;
  project_dir : string;
}.

Definition DEFAULT_ALLOWED_TOOLS : list string :=
  [ "Write"; "Read"; "Edit"; "Glob"; "Grep"; "LS";
    "Bash"; "Task"; "Skill";
    "WebFetch"; "WebSearch";
    "mcp__perplexity-ask__perplexity_ask";
    "mcp__context7__resolve-library-id";
    "mcp__context7__get-library-docs";
    "mcp__brave-search__brave_web_search" ].

(** [__init__]; [cwd] is [Path.cwd()]. *)
Definition CLIOrchestrator_init (primary : string) (fallback : option string)
    (timeout : Z) (dir : option string) (cwd : string) : CLIOrchestrator :=
  {| primary_cli := primary;
     fallback_cli :=
       match fallback with
       | Some f => if String.eqb f "none" then None else Some f
       | None => None
       end;
     default_timeout := timeout;
     project_dir := default cwd dir |}.

(** [CLIOrchestrator()] with every default. *)
Definition CLIOrchestrator_default (cwd : string) : CLIOrchestrator :=
  CLIOrchestrator_init "claude" (Some "opencode") 600 None cwd.

Definition timeout_message (timeout : Z) : string :=
  String.append "Timeout after " (String.append (Py.str_of_int timeout) "s").

(** ** [CLIOrchestrator.generate_settings_json] *)

(** The code points of a text, as [Json.Str] holds them. *)
Definition codes (s : string) : list N := N_of_ascii <$> list_ascii_of_string s.

(** A [str] as a Python value. *)
Definition py_text (s : string) : Json.value := Json.Str (codes s).

(** The [Path] of the hook script as the function sees it: whether the file
    is there ([exists()]) and the text of [absolute()]. *)
Record HookPath := {
  hook_exists : bool;
  hook_absolute : string;
}.

(** The dictionary [settings] at the [return]: [settings = {}] followed by
    the two conditional assignments. *)
Definition settings_dict (hook_script : option HookPath)
    (additional_dirs : option (list Py.StrOrPath)) : Json.value :=
  let settings : list (list N * Json.value) := [] in
  let settings :=
    match hook_script with
    | Some hook =>
        if hook_exists hook then
          let hook_path := hook_absolute hook in
          let hook_config :=
            Json.Arr [Json.Obj (Json.dict [(codes "type", py_text "command");
                                           (codes "command", py_text hook_path);
                                           (codes "timeout", Json.Int 5)])] in
          Json.dict_set (codes "hooks")
            (Json.Obj (Json.dict
               [(codes "PostToolUse",
                 Json.Arr [Json.Obj (Json.dict [(codes "matcher", py_text "*");
                                                (codes "hooks", hook_config)])]);
                (codes "PreToolUse",
                 Json.Arr [Json.Obj (Json.dict [(codes "matcher", py_text "*");
                                                (codes "hooks", hook_config)])])]))
            settings
        else settings
    | None => settings
    end in
  let settings :=
    Py.if_list additional_dirs
      (fun ds =>
         Json.dict_set (codes "permissions")
           (Json.Obj (Json.dict
              [(codes "additionalDirectories",
                Json.Arr ((fun d => py_text (Py.str d)) <$> ds))]))
           settings)
      settings in
  Json.Obj settings.

Definition generate_settings_json (hook_script : option HookPath)
    (additional_dirs : option (list Py.StrOrPath)) : string :=
  Json.dumps (settings_dict hook_script additional_dirs).

(** ** [CLIOrchestrator.invoke_sync] *)

Definition invoke_sync (self : CLIOrchestrator) (prompt : string)
    (tool : option string) (timeout : option Z)
    (working_dir : option Py.StrOrPath)
    (allowed_tools : option (list string)) : Os.M CLIInvocationResult :=
  let tool := Py.or_str tool (primary_cli self) in
  let timeout := Py.or_int timeout (default_timeout self) in
  let allowed_tools := Py.or_list allowed_tools DEFAULT_ALLOWED_TOOLS in
  start_time <- Os.time_time ;;
  let '(cmd, stdin_content) :=
    build_command tool prompt None
      (if String.eqb tool "claude" then Some allowed_tools else None)
      None None false in
  Os.try_except
    (result <- Os.subprocess_run cmd timeout (Py.str <$> working_dir) stdin_content ;;
     now <- Os.time_time ;;
     let duration_ms := now - start_time in
     if Os.cp_returncode result =? 0 then
       Os.ret (Build_CLIInvocationResult SUCCESS tool (Os.cp_stdout result)
                 (extract_json_from_output (Os.cp_stdout result))
                 duration_ms (Os.cp_returncode result)
                 error_default fallback_used_default cmd)
     else
       Os.ret (Build_CLIInvocationResult FAILED tool (Os.cp_stdout result)
                 parsed_json_default
                 duration_ms (Os.cp_returncode result)
                 (Some (Os.cp_stderr result)) fallback_used_default cmd))
    (fun e =>
       match e with
       | Os.TimeoutExpired _ =>
           Some (now <- Os.time_time ;;
                 Os.ret (Build_CLIInvocationResult TIMEOUT tool EmptyString
                           parsed_json_default
                           (now - start_time) (-1)
                           (Some (timeout_message timeout))
                           fallback_used_default cmd))
       | _ => None
       end).

(** ** [CLIOrchestrator.invoke_async] *)

Definition invoke_async (self : CLIOrchestrator) (prompt : string)
    (tool : option string) (timeout : option Z)
    (working_dir : option Py.StrOrPath)
    (allowed_tools : option (list string)) : Os.M CLIInvocationResult :=
  let tool := Py.or_str tool (primary_cli self) in
  let timeout := Py.or_int timeout (default_timeout self) in
  let allowed_tools := Py.or_list allowed_tools DEFAULT_ALLOWED_TOOLS in
  start_time <- Os.time_time ;;
  let '(cmd, stdin_content) :=
    build_command tool prompt None
      (if String.eqb tool "claude" then Some allowed_tools else None)
      None None false in
  Os.try_except
    (process <- Os.create_subprocess_exec cmd
                  (Py.if_str stdin_content (fun _ => true) false)
                  (Py.str_if_truthy working_dir) ;;
     (if Py.if_str stdin_content (fun _ => true) false && Os.has_stdin process then
        Os.stdin_write (default EmptyString stdin_content) ;;;
        Os.stdin_drain ;;;
        Os.stdin_close
      else Os.ret tt) ;;;
     pipes <- Os.wait_for_communicate timeout ;;
     let '(stdout, stderr) := pipes in
     now <- Os.time_time ;;
     let duration_ms := now - start_time in
     let stdout_str := if Py.str_falsy stdout then EmptyString else Os.decode stdout in
     process_returncode <- Os.process_returncode ;;
     if bool_decide (process_returncode = Some 0) then
       Os.ret (Build_CLIInvocationResult SUCCESS tool stdout_str
                 (extract_json_from_output stdout_str)
                 duration_ms (Py.or_int process_returncode 0)
                 error_default fallback_used_default cmd)
     else
       Os.ret (Build_CLIInvocationResult FAILED tool stdout_str
                 parsed_json_default
                 duration_ms (Py.or_int process_returncode (-1))
                 (Some (if Py.str_falsy stderr then EmptyString else Os.decode stderr))
                 fallback_used_default cmd))
    (fun e =>
       match e with
       | Os.TimeoutError =>
           Some (now <- Os.time_time ;;
                 Os.ret (Build_CLIInvocationResult TIMEOUT tool EmptyString
                           parsed_json_default
                           (now - start_time) (-1)
                           (Some (timeout_message timeout))
                           fallback_used_default cmd))
       | _ => None
       end).

(** ** [CLIOrchestrator.invoke_parallel]

    [asyncio.gather] starts one task per prompt; each task waits for a permit
    of the semaphore, runs [invoke_async] with every default, and gives the
    permit back.  The event loop decides who moves next: a schedule is the
    list of its decisions.  A task that holds a permit finishes with the
    outcome of its own [invoke_async], run in the world of its own child.
    [gather] files each outcome under the index of its task; the first
    exception raised by a task is passed on to the caller at once. *)

Module Sched.

Inductive Task :=
| Queued
| Holding
| Done (o : Os.Outcome CLIInvocationResult).

Record State := {
  permits : Z;
  tasks : list Task;
  raised : option Os.Exn;
}.

Inductive Event :=
| Acquire (i : nat)
| Finish (i : nat).

(** Permits in use, and the moves a task still has to make. *)
Definition held (t : Task) : nat :=
  match t with Holding => 1 | _ => 0 end.

Definition moves_left (t : Task) : nat :=
  match t with Queued => 2 | Holding => 1 | Done _ => 0 end.

Definition holding (s : State) : nat := sum_list_with held (tasks s).

Definition remaining (s : State) : nat := sum_list_with moves_left (tasks s).

Section Parallel.
Variable self : CLIOrchestrator.
Variable prompts : list string.
Variable worlds : list Os.World.

(** [return await self.invoke_async(prompt)] for the task of index [i]. *)
Definition invoke_with_limit (i : nat) : option (Os.Outcome CLIInvocationResult) :=
  match prompts !! i, worlds !! i with
  | Some prompt, Some w => Some (fst (invoke_async self prompt None None None None w))
  | _, _ => None
  end.

Definition note_raise (o : Os.Outcome CLIInvocationResult) (r : option Os.Exn)
    : option Os.Exn :=
  match r, o with
  | None, Os.Raise e => Some e
  | _, _ => r
  end.

Definition step (e : Event) (s : State) : option State :=
  match e with
  | Acquire i =>
      match tasks s !! i with
      | Some Queued =>
          if 0 <? permits s then
            Some {| permits := permits s - 1;
                    tasks := <[i := Holding]> (tasks s);
                    raised := raised s |}
          else None
      | _ => None
      end
  | Finish i =>
      match tasks s !! i, invoke_with_limit i with
      | Some Holding, Some o =>
          Some {| permits := permits s + 1;
                  tasks := <[i := Done o]> (tasks s);
                  raised := note_raise o (raised s) |}
      | _, _ => None
      end
  end.

Fixpoint run (sched : list Event) (s : State) : option State :=
  match sched with
  | [] => Some s
  | e :: sched' =>
      match step e s with
      | Some s' => run sched' s'
      | None => None
      end
  end.

(** [semaphore = asyncio.Semaphore(max_concurrent)] and
    [tasks = [invoke_with_limit(p) for p in prompts]]. *)
Definition init (max_concurrent : Z) : State :=
  {| permits := max_concurrent;
     tasks := (fun _ => Queued) <$> prompts;
     raised := None |}.

Definition returned (t : Task) : option CLIInvocationResult :=
  match t with
  | Done (Os.Return r) => Some r
  | _ => None
  end.

(** What [await asyncio.gather( *tasks )] yields in state [s], if it is
    ready: the first exception, or every result in task order. *)
Definition gather (s : State) : option (Os.Outcome (list CLIInvocationResult)) :=
  match raised s with
  | Some e => Some (Os.Raise e)
  | None => Os.Return <$> mapM returned (tasks s)
  end.

(** [invoke_parallel] under a schedule; [None] when the schedule asks for
    a move that is not possible, or stops before [gather] is ready. *)
Definition invoke_parallel (max_concurrent : Z) (sched : list Event)
    : option (Os.Outcome (list CLIInvocationResult)) :=
  if max_concurrent <? 0 then Some (Os.Raise Os.ValueError)
  else
    match run sched (init max_concurrent) with
    | Some s => gather s
    | None => None
    end.

(** Some move is possible. *)
Definition can_move (s : State) : Prop := exists e s', step e s = Some s'.

End Parallel.

End Sched.

(** ** Sample inputs *)

Definition lf : string := String nl EmptyString.
Definition dq : string := String Json.quote EmptyString.
Definition bs : string := String Json.backslash EmptyString.

(** A child that prints 4 and exits with status 0 after 1.5 s. *)
Definition child_prints_4 : Os.Child :=
  {| Os.spawnable := true; Os.runtime_ms := Some 1500; Os.exit_code := 0;
     Os.stdout := "4"; Os.stderr := EmptyString |}.

(** A child that prints a line, complains and exits with status 2. *)
Definition child_fails : Os.Child :=
  {| Os.spawnable := true; Os.runtime_ms := Some 20; Os.exit_code := 2;
     Os.stdout := "step 1 done"; Os.stderr := "boom" |}.

(** A child that prints a line and then never exits. *)
Definition child_hangs : Os.Child :=
  {| Os.spawnable := true; Os.runtime_ms := None; Os.exit_code := 0;
     Os.stdout := "step 1 done"; Os.stderr := EmptyString |}.

(** A binary that is not installed: the child cannot be started. *)
Definition child_missing : Os.Child :=
  {| Os.spawnable := false; Os.runtime_ms := None; Os.exit_code := 0;
     Os.stdout := EmptyString; Os.stderr := EmptyString |}.

Definition orchestrator : CLIOrchestrator := CLIOrchestrator_default "/work".

(** ** Vocabulary of the properties *)

(** The three invariants of a result; [timeout] is the timeout in force. *)
Definition result_invariant (timeout : Z) (r : CLIInvocationResult) : Prop :=
  (status r = SUCCESS -> returncode r = 0 /\ error r = None)
  /\ (status r = FAILED -> returncode r <> 0 /\ error r <> None)
  /\ (status r = TIMEOUT ->
      returncode r = -1 /\ error r = Some (timeout_message timeout)).

(** What one invocation does with tools: the result names the tool that was
    asked for (the primary one by default), carries the command built for
    that tool, never has the fallback flag set nor the Fallback status, and
    exactly one process was created, with that command. *)
Definition single_dispatch (self : CLIOrchestrator) (prompt : string)
    (asked : option string) (allowed_tools : option (list string))
    (w w' : Os.World) (r : CLIInvocationResult) : Prop :=
  fallback_used r = false
  /\ (status r = SUCCESS \/ status r = FAILED \/ status r = TIMEOUT)
  /\ tool r = Py.or_str asked (primary_cli self)
  /\ command r
     = fst (build_command (Py.or_str asked (primary_cli self)) prompt None
              (if String.eqb (Py.or_str asked (primary_cli self)) "claude"
               then Some (Py.or_list allowed_tools DEFAULT_ALLOWED_TOOLS) else None)
              None None false)
  /\ Os.argv <$> Os.spawned w' = (Os.argv <$> Os.spawned w) ++ [command r].

Section ParallelSpec.
Variable self : CLIOrchestrator.
Variable prompts : list string.
Variable worlds : list Os.World.
Variable max_concurrent : Z.

(** What every reachable state satisfies: one task per prompt; the permits
    left and the permits held add up to the cap; no task has raised; a
    finished task carries the outcome of the invocation of its own index. *)
Definition reachable_inv (s : Sched.State) : Prop :=
  length (Sched.tasks s) = length prompts
  /\ Sched.permits s + Z.of_nat (Sched.holding s) = max_concurrent
  /\ Sched.raised s = None
  /\ forall i o,
       Sched.tasks s !! i = Some (Sched.Done o) ->
       Sched.invoke_with_limit self prompts worlds i = Some o.

(** A finished task carries the outcome of its own index, whatever the
    children do. *)
Definition done_inv (s : Sched.State) : Prop :=
  forall i o,
    Sched.tasks s !! i = Some (Sched.Done o) ->
    Sched.invoke_with_limit self prompts worlds i = Some o.

(** The list [gather] returns is index-aligned with the prompts. *)
Definition aligned (rs : list CLIInvocationResult) : Prop :=
  length rs = length prompts
  /\ forall i prompt w,
       prompts !! i = Some prompt -> worlds !! i = Some w ->
       exists r, rs !! i = Some r
                 /\ fst (invoke_async self prompt None None None None w) = Os.Return r.
End ParallelSpec.

(** What [invoke_parallel] promises for a cap and one world per prompt:
    - along every schedule, at most two moves per prompt are made; when
      [gather] is ready it returns a list, index-aligned with the prompts;
      and while it is not ready some task can still move;
    - some schedule makes [invoke_parallel] return such a list. *)
Definition parallel_contract (self : CLIOrchestrator) (prompts : list string)
    (worlds : list Os.World) (max_concurrent : Z) : Prop :=
  (forall sched s,
     Sched.run self prompts worlds sched (Sched.init prompts max_concurrent) = Some s ->
     (length sched <= 2 * length prompts)%nat
     /\ (forall out, Sched.gather s = Some out ->
                     exists rs, out = Os.Return rs /\ aligned self prompts worlds rs)
     /\ (Sched.gather s = None -> Sched.can_move self prompts worlds s))
  /\ (exists sched rs,
        Sched.invoke_parallel self prompts worlds max_concurrent sched
        = Some (Os.Return rs)
        /\ aligned self prompts worlds rs).

(** A value with every kind of item, and the text [json.dumps] writes for
    it: an object whose key x holds the array of 1, -20, 2.5e3, true, null,
    a string with a quote, a line feed, an accented letter and a character
    outside the basic plane, an empty array and an empty object. *)
Definition sample_value : Json.value :=
  Json.Obj
    [([120%N],
      Json.Arr [Json.Int 1; Json.Int (-20); Json.Float "2.5e3"; Json.Bool true;
                Json.Null; Json.Str [34%N; 10%N; 233%N; 128512%N];
                Json.Arr []; Json.Obj []])].

Definition sample_literal : string :=
  String.concat EmptyString
    [ "{"; dq; "x"; dq; ": [1, -20, 2.5e3, true, null, ";
      dq; bs; dq; bs; "n"; bs; "u00e9"; bs; "ud83d"; bs; "ude00"; dq;
      ", [], {}]}" ].

(** Prose with a fenced block, a brace span and a bracket span, none of
    which is JSON. *)
Definition sample_prose : string :=
  String.concat EmptyString
    [ "Done. ```"; lf; "not json"; lf; "``` see {oops} and [a, b]" ].

(** Three prompts under a cap of two: the first child fails, the second
    never exits, the third prints 4. *)
Definition three_prompts : list string := ["A"; "B"; "C"].
Definition three_worlds : list Os.World :=
  [Os.fresh child_fails 0; Os.fresh child_hangs 0; Os.fresh child_prints_4 0].

(** ** Vocabulary of the further properties *)

(** What a result says of the dispatch: its status, tool, exit code,
    fallback flag and command. *)
Definition dispatched (r : CLIInvocationResult) :=
  (status r, tool r, returncode r, fallback_used r, command r).

Definition dispatched_outcome (o : Os.Outcome CLIInvocationResult) :=
  match o with
  | Os.Return r => Os.Return (dispatched r)
  | Os.Raise e => Os.Raise e
  end.

(** How an invocation is classified, for a child [c] and the timeout in
    force. *)
Definition classified (timeout : Z) (c : Os.Child) (r : CLIInvocationResult) : Prop :=
  (status r = SUCCESS <-> Os.exits_within c timeout = true /\ Os.exit_code c = 0)
  /\ (status r = FAILED <-> Os.exits_within c timeout = true /\ Os.exit_code c <> 0)
  /\ (status r = TIMEOUT <-> Os.exits_within c timeout = false)
  /\ parsed_json r
     = match status r with
       | SUCCESS => extract_json_from_output (Os.stdout c)
       | _ => Json.Null
       end
  /\ (status r <> TIMEOUT -> returncode r = Os.exit_code c).

(** A child that prints a JSON object and exits with status 3. *)
Definition child_fails_with_json : Os.Child :=
  {| Os.spawnable := true; Os.runtime_ms := Some 20; Os.exit_code := 3;
     Os.stdout := "{}"; Os.stderr := "bad input" |}.

(** Is there a hook script to register, are there directories to allow? *)
Definition hook_usable (hook_script : option HookPath) : bool :=
  match hook_script with
  | Some hook => hook_exists hook
  | None => false
  end.

Definition dirs_given (additional_dirs : option (list Py.StrOrPath)) : bool :=
  match additional_dirs with
  | Some (_ :: _) => true
  | Some [] | None => false
  end.

(** Does the character occur in the text? *)
Fixpoint has_char (c : ascii) (s : string) : bool :=
  match s with
  | EmptyString => false
  | String x r => Ascii.eqb c x || has_char c r
  end.

(** The text after the last occurrence of a character. *)
Fixpoint after_last (c : ascii) (s : string) : option string :=
  match s with
  | EmptyString => None
  | String x r =>
      match after_last c r with
      | Some t => Some t
      | None => if Ascii.eqb c x then Some r else None
      end
  end.

(** The pattern of a greedy span between two delimiters; the brace and the
    bracket patterns are its two instances. *)
Definition span_pattern (o c : ascii) : Re.regex :=
  Re.Group (Re.Seq (Re.Chr o) (Re.Seq (Re.Star Re.any) (Re.Chr c))).

(** * Properties *)

(** ** Command construction *)

Section BuildCommand.
Variables (model : option string)
          (allowed_tools : option (list string))
          (add_dirs : option (list Py.StrOrPath))
          (settings_json : option string).

Lemma build_command_opencode prompt sandbox :
  build_command "opencode" prompt model allowed_tools add_dirs settings_json sandbox
  = (Py.append (Py.if_str model (fun m => ["opencode"; "run"; "--model"; m])
                  ["opencode"; "run"]) prompt, None).
Proof.
  unfold build_command. simpl.
  destruct model as [[|c m]|]; reflexivity.
Qed.

Lemma build_command_no_sandbox_stdin tool prompt :
  snd (build_command tool prompt model allowed_tools add_dirs settings_json false) = None.
Proof.
  unfold build_command. destruct (String.eqb tool "opencode"); reflexivity.
Qed.

(** On the primary path the flags before -p are the same for every prompt
    and for both modes. *)
Lemma build_command_primary tool :
  tool <> "opencode" ->
  exists flags : list string,
    forall (prompt : string) (sandbox : bool),
      build_command tool prompt model allowed_tools add_dirs settings_json sandbox
      = if sandbox
        then (flags ++ ["-p"],
              Some (String.append (String.append "/sandbox" lf) prompt))
        else (flags ++ ["-p"; prompt], None).
Proof.
  intros Htool. apply String.eqb_neq in Htool.
  unfold build_command. rewrite Htool.
  eexists. intros p [|]; reflexivity.
Qed.
End BuildCommand.

(** C2.  For a tool other than the fallback one, the argument vector is a run
    of option flags that does not depend on the prompt, followed in sandbox
    mode by -p alone, with the sandbox directive line and the prompt as
    standard input, and in normal mode by -p and the prompt, with no standard
    input; so the last argument is the -p flag in sandbox mode and the prompt
    in normal mode. *)
Theorem build_command_sandbox_split :
  forall (tool : string) (model : option string)
         (allowed_tools : option (list string))
         (add_dirs : option (list Py.StrOrPath))
         (settings_json : option string),
    tool <> "opencode" ->
    exists flags : list string,
      forall prompt : string,
        build_command tool prompt model allowed_tools add_dirs settings_json true
        = (flags ++ ["-p"], Some (String.append (String.append "/sandbox" lf) prompt))
        /\ build_command tool prompt model allowed_tools add_dirs settings_json false
           = (flags ++ ["-p"; prompt], None)
        /\ last (fst (build_command tool prompt model allowed_tools add_dirs
                        settings_json true)) = Some "-p"
        /\ last (fst (build_command tool prompt model allowed_tools add_dirs
                        settings_json false)) = Some prompt
        /\ length (fst (build_command tool prompt model allowed_tools add_dirs
                          settings_json false))
           = S (length (fst (build_command tool prompt model allowed_tools add_dirs
                               settings_json true))).
Proof.
  intros tool model allowed_tools add_dirs settings_json Htool.
  destruct (build_command_primary model allowed_tools add_dirs settings_json tool Htool)
    as [flags Hflags].
  exists flags. intros prompt.
  rewrite (Hflags prompt true), (Hflags prompt false). cbn [fst].
  repeat split.
  - apply last_snoc.
  - change ["-p"; prompt] with (["-p"] ++ [prompt]).
    rewrite app_assoc. apply last_snoc.
  - rewrite !length_app. simpl. lia.
Qed.

Lemma build_command_sandbox_split_witness :
  exists flags : list string,
    forall prompt : string,
      build_command "claude" prompt (Some "opus") (Some ["Read"; "Bash"])
        (Some [Py.AStr "/data"]) None true
      = (flags ++ ["-p"], Some (String.append (String.append "/sandbox" lf) prompt))
      /\ build_command "claude" prompt (Some "opus") (Some ["Read"; "Bash"])
           (Some [Py.AStr "/data"]) None false
         = (flags ++ ["-p"; prompt], None)
      /\ last (fst (build_command "claude" prompt (Some "opus") (Some ["Read"; "Bash"])
                      (Some [Py.AStr "/data"]) None true)) = Some "-p"
      /\ last (fst (build_command "claude" prompt (Some "opus") (Some ["Read"; "Bash"])
                      (Some [Py.AStr "/data"]) None false)) = Some prompt
      /\ length (fst (build_command "claude" prompt (Some "opus") (Some ["Read"; "Bash"])
                        (Some [Py.AStr "/data"]) None false))
         = S (length (fst (build_command "claude" prompt (Some "opus")
                             (Some ["Read"; "Bash"]) (Some [Py.AStr "/data"]) None true))).
Proof.
  apply (build_command_sandbox_split "claude" (Some "opus") (Some ["Read"; "Bash"])
           (Some [Py.AStr "/data"]) None).
  discriminate.
Defined.

(** C9.  For the fallback tool the result is the binary and the word run,
    then --model and the model when a (non-empty) model is given, then the
    prompt as last argument, with no standard input; the allowed tools, the
    directories, the settings and the sandbox flag add nothing. *)
Theorem build_command_fallback_shape :
  forall (prompt : string) (model : option string)
         (allowed_tools : option (list string))
         (add_dirs : option (list Py.StrOrPath))
         (settings_json : option string) (enable_sandbox : bool),
    build_command "opencode" prompt model allowed_tools add_dirs settings_json
      enable_sandbox
    = (match model with
       | Some (String c m) => ["opencode"; "run"; "--model"; String c m; prompt]
       | Some EmptyString | None => ["opencode"; "run"; prompt]
       end, None).
Proof.
  intros. rewrite build_command_opencode.
  destruct model as [[|c m]|]; reflexivity.
Qed.

(** ** One invocation *)

(** Unfold one invocation down to the primitives of the world and split on
    what the child does: cannot start, exits in time (with status 0 or not),
    or is still running when the timeout expires. *)
Ltac invoke_cases w :=
  unfold invoke_sync, invoke_async, Os.try_except, Os.bind, Os.time_time,
    Os.subprocess_run, Os.create_subprocess_exec, Os.wait_for_communicate,
    Os.process_returncode, Os.ret in *;
  simpl in *;
  match goal with
  | |- context [build_command ?t ?p ?m ?a ?d ?s false] =>
      let E := fresh "Estdin" in
      pose proof (build_command_no_sandbox_stdin m a d s t p) as E;
      destruct (build_command t p m a d s false) as [? ?] eqn:Ebuild;
      simpl in E; subst
  | H : context [build_command ?t ?p ?m ?a ?d ?s false] |- _ =>
      let E := fresh "Estdin" in
      pose proof (build_command_no_sandbox_stdin m a d s t p) as E;
      destruct (build_command t p m a d s false) as [? ?] eqn:Ebuild;
      simpl in E; subst
  end;
  simpl in *;
  destruct (Os.spawnable (Os.child w)) eqn:Hspawn; simpl in *;
  [ match goal with
    | |- context [Os.exits_within ?c ?t] =>
        destruct (Os.exits_within c t) eqn:Hexit; simpl in *
    | H : context [Os.exits_within ?c ?t] |- _ =>
        destruct (Os.exits_within c t) eqn:Hexit; simpl in *
    end
  | ].

(** C1.  A result returned by [invoke_sync] or by [invoke_async] has exit
    code 0 and no error when its status is Success, a nonzero exit code and
    an error when it is Failed, and exit code -1 with the message naming the
    timeout in force when it is Timeout. *)
Theorem invoke_result_invariant :
  forall (self : CLIOrchestrator) (prompt : string) (tool : option string)
         (timeout : option Z) (working_dir : option Py.StrOrPath)
         (allowed_tools : option (list string)) (w w' : Os.World)
         (r : CLIInvocationResult),
    invoke_sync self prompt tool timeout working_dir allowed_tools w = (Os.Return r, w')
    \/ invoke_async self prompt tool timeout working_dir allowed_tools w = (Os.Return r, w') ->
    result_invariant (Py.or_int timeout (default_timeout self)) r.
Proof.
  intros self prompt tool timeout working_dir allowed_tools w w' r [H | H].
  - invoke_cases w.
    + destruct (Os.exit_code (Os.child w) =? 0) eqn:Hrc;
        inversion H; subst; clear H; unfold result_invariant; simpl;
        repeat split; try discriminate.
      * apply Z.eqb_eq, Hrc.
      * apply Z.eqb_neq, Hrc.
    + inversion H; subst; clear H; unfold result_invariant; simpl;
        repeat split; discriminate.
    + discriminate.
  - invoke_cases w.
    + case_bool_decide as Hrc;
        inversion H; subst; clear H; unfold result_invariant; simpl;
        repeat split; try discriminate.
      * injection Hrc as ->. reflexivity.
      * destruct (Os.exit_code (Os.child w) =? 0) eqn:E; [discriminate|].
        apply Z.eqb_neq, E.
    + inversion H; subst; clear H; unfold result_invariant; simpl;
        repeat split; discriminate.
    + discriminate.
Qed.

Lemma invoke_result_invariant_witness :
  exists r : CLIInvocationResult,
    fst (invoke_async orchestrator "Summarise the log" None (Some 1) None None
           (Os.fresh child_hangs 0)) = Os.Return r
    /\ status r = TIMEOUT
    /\ result_invariant 1 r.
Proof.
  eexists. split; [vm_compute; reflexivity|]. split; [reflexivity|].
  apply (invoke_result_invariant orchestrator "Summarise the log" None (Some 1)
           None None (Os.fresh child_hangs 0)
           (snd (invoke_async orchestrator "Summarise the log" None (Some 1) None None
                   (Os.fresh child_hangs 0)))).
  right. vm_compute. reflexivity.
Defined.

(** An invocation returns a result as soon as the child can be started, and
    raises [OSError] otherwise: waiting never fails, it can only time out. *)
Lemma invoke_returns_iff_spawnable self prompt tool timeout working_dir allowed_tools w :
  (Os.spawnable (Os.child w) = true ->
   (exists r w', invoke_sync self prompt tool timeout working_dir allowed_tools w
                 = (Os.Return r, w'))
   /\ (exists r w', invoke_async self prompt tool timeout working_dir allowed_tools w
                    = (Os.Return r, w')))
  /\ (Os.spawnable (Os.child w) = false ->
      invoke_sync self prompt tool timeout working_dir allowed_tools w
      = (Os.Raise Os.OSError, w)
      /\ invoke_async self prompt tool timeout working_dir allowed_tools w
         = (Os.Raise Os.OSError, w)).
Proof.
  split; intros Hs.
  - split.
    + invoke_cases w; try discriminate.
      * destruct (Os.exit_code (Os.child w) =? 0); eauto.
      * eauto.
    + invoke_cases w; try discriminate.
      * case_bool_decide; eauto.
      * eauto.
  - split; invoke_cases w; try discriminate; destruct w; reflexivity.
Qed.

Lemma str_or_empty (s : string) :
  (if Py.str_falsy s then EmptyString else Os.decode s) = s.
Proof. destruct s; reflexivity. Qed.

(** ** What is kept of the output *)




(** ** The child after a timeout *)

(** When the child is still running at the deadline, [invoke_async] returns
    a Timeout result and leaves the child running, whereas [invoke_sync]
    returns only after the child was killed and waited for. *)
Lemma timeout_child_state self prompt tool timeout working_dir allowed_tools w :
  Os.spawnable (Os.child w) = true ->
  Os.exits_within (Os.child w) (Py.or_int timeout (default_timeout self)) = false ->
  (exists r w', invoke_async self prompt tool timeout working_dir allowed_tools w
                = (Os.Return r, w')
                /\ status r = TIMEOUT /\ Os.proc w' = Os.Running)
  /\ (exists r w', invoke_sync self prompt tool timeout working_dir allowed_tools w
                   = (Os.Return r, w')
                   /\ status r = TIMEOUT /\ Os.proc w' = Os.Reaped Os.killed).
Proof.
  intros Hs Hx. split.
  - invoke_cases w; try discriminate. eexists _, _. repeat split.
  - invoke_cases w; try discriminate. eexists _, _. repeat split.
Qed.

(** C8 on the code.  With a child that never exits and a timeout of one
    second, [invoke_async] returns a Timeout result while the child is still
    running in the world it leaves behind; [invoke_sync], on the same input,
    leaves a child that was killed and reaped. *)
Theorem invoke_async_timeout_leaves_child_running :
  let w := Os.fresh child_hangs 0 in
  let async_run := invoke_async orchestrator "Run the build" None (Some 1) None None w in
  let sync_run := invoke_sync orchestrator "Run the build" None (Some 1) None None w in
  (exists r, fst async_run = Os.Return r /\ status r = TIMEOUT)
  /\ Os.is_running (snd async_run) = true
  /\ (exists r, fst sync_run = Os.Return r /\ status r = TIMEOUT)
  /\ Os.proc (snd sync_run) = Os.Reaped Os.killed.
Proof.
  repeat split; try (eexists; split; [vm_compute; reflexivity|reflexivity]);
    vm_compute; reflexivity.
Qed.

(** ** No dispatch to the fallback tool *)

Lemma invoke_single_dispatch self prompt tool timeout working_dir allowed_tools w w' r :
  invoke_sync self prompt tool timeout working_dir allowed_tools w = (Os.Return r, w')
  \/ invoke_async self prompt tool timeout working_dir allowed_tools w = (Os.Return r, w') ->
  single_dispatch self prompt tool allowed_tools w w' r.
Proof.
  unfold single_dispatch.
  intros [H | H].
  - invoke_cases w; try discriminate.
    + destruct (Os.exit_code (Os.child w) =? 0);
        inversion H; subst; simpl; rewrite fmap_app; auto 10.
    + inversion H; subst; simpl; rewrite fmap_app; auto 10.
  - invoke_cases w; try discriminate.
    + case_bool_decide;
        inversion H; subst; simpl; rewrite fmap_app; auto 10.
    + inversion H; subst; simpl; rewrite fmap_app; auto 10.
Qed.

(** ** The worked example *)

(** C6, as stated, fails on the default orchestrator: with the child that
    prints 4 and exits with status 0 the result is a Success with output 4,
    but -p does not follow the binary (the default allowed tools come first)
    and the parsed payload is the number 4, not [None]. *)
Lemma what_is_2_plus_2_not_as_stated :
  exists r : CLIInvocationResult,
    fst (invoke_sync orchestrator "What is 2+2?" None None None None
           (Os.fresh child_prints_4 0)) = Os.Return r
    /\ status r = SUCCESS
    /\ output r = "4"
    /\ take 3 (command r) <> ["claude"; "-p"; "What is 2+2?"]
    /\ command r !! 1%nat <> Some "-p"
    /\ parsed_json r <> Json.Null.
Proof.
  eexists. split; [vm_compute; reflexivity|].
  repeat split; simpl; discriminate.
Qed.

(** C6, as amended.  For the prompt of the example on an orchestrator whose
    primary tool is claude, the argument vector is the binary, then
    --allowedTools with each default tool in turn, then -p and the prompt;
    a child that exits in time with status 0 and prints 4 yields a Success
    with output 4 and the number 4 as parsed payload. *)
Theorem what_is_2_plus_2 :
  forall (self : CLIOrchestrator) (w : Os.World),
    primary_cli self = "claude" ->
    Os.spawnable (Os.child w) = true ->
    Os.exits_within (Os.child w) (default_timeout self) = true ->
    Os.exit_code (Os.child w) = 0 ->
    Os.stdout (Os.child w) = "4" ->
    exists (r : CLIInvocationResult) (w' : Os.World),
      invoke_sync self "What is 2+2?" None None None None w = (Os.Return r, w')
      /\ command r
         = ["claude"]
           ++ concat ((fun t => ["--allowedTools"; t]) <$> DEFAULT_ALLOWED_TOOLS)
           ++ ["-p"; "What is 2+2?"]
      /\ status r = SUCCESS
      /\ output r = "4"
      /\ parsed_json r = Json.Int 4.
Proof.
  intros self w Hp Hs Hx Hrc Hout.
  unfold invoke_sync, Os.try_except, Os.bind, Os.time_time, Os.subprocess_run, Os.ret.
  rewrite Hp. simpl. rewrite Hs. simpl. rewrite Hx, Hrc, Hout. simpl.
  eexists _, _. split; [reflexivity|]. simpl.
  repeat split.
Qed.

Lemma what_is_2_plus_2_witness :
  exists (r : CLIInvocationResult) (w' : Os.World),
    invoke_sync orchestrator "What is 2+2?" None None None None
      (Os.fresh child_prints_4 0) = (Os.Return r, w')
    /\ command r
       = ["claude"]
         ++ concat ((fun t => ["--allowedTools"; t]) <$> DEFAULT_ALLOWED_TOOLS)
         ++ ["-p"; "What is 2+2?"]
    /\ status r = SUCCESS
    /\ output r = "4"
    /\ parsed_json r = Json.Int 4.
Proof.
  apply (what_is_2_plus_2 orchestrator (Os.fresh child_prints_4 0));
    vm_compute; reflexivity.
Defined.

(** ** Extraction of a JSON value *)

Lemma loads_empty : Json.loads EmptyString = None.
Proof. reflexivity. Qed.

Lemma first_loads_none f matches :
  Forall (fun m => Json.loads (f m) = None) matches -> first_loads f matches = None.
Proof.
  induction 1 as [|m rest Hm _ IH]; simpl; [reflexivity|].
  rewrite Hm. exact IH.
Qed.

Lemma first_loads_some f matches v :
  first_loads f matches = Some v ->
  exists before m after,
    matches = before ++ m :: after
    /\ Forall (fun m' => Json.loads (f m') = None) before
    /\ Json.loads (f m) = Some v.
Proof.
  induction matches as [|m rest IH]; simpl; [discriminate|].
  destruct (Json.loads (f m)) as [v'|] eqn:Hm.
  - intros [= ->]. exists [], m, rest. auto.
  - intros H. destruct (IH H) as (before & m' & after & -> & Hb & Hv).
    exists (m :: before), m', after. repeat split; auto.
Qed.

(** ** Round trip of the writer and the reader *)

Section Chars.
Import Json.

Lemma code_of_N (n : N) : (n < 256)%N -> code (ascii_of_N n) = n.
Proof. apply N_ascii_embedding. Qed.

Lemma eqb_code (a b : ascii) : Ascii.eqb a b = (code a =? code b)%N.
Proof.
  destruct (Ascii.eqb_spec a b) as [->|Hne].
  - symmetry. apply N.eqb_refl.
  - symmetry. apply N.eqb_neq. intros H. apply Hne.
    rewrite <- (ascii_N_embedding a), <- (ascii_N_embedding b).
    unfold code in H. rewrite H. reflexivity.
Qed.

Lemma lor_shift_add (a b k : N) :
  (b < 2 ^ k)%N -> N.lor (a * 2 ^ k) b = (a * 2 ^ k + b)%N.
Proof.
  intros Hb.
  assert (Hland : N.land (a * 2 ^ k) b = 0%N).
  { apply N.bits_inj. intros i. rewrite N.land_spec, N.bits_0.
    destruct (N.lt_ge_cases i k) as [Hlt | Hge].
    - rewrite N.mul_pow2_bits_low by exact Hlt. reflexivity.
    - rewrite <- (N.mod_small b (2 ^ k)) by exact Hb.
      rewrite N.mod_pow2_bits_high by exact Hge. apply andb_false_r. }
  rewrite <- (N.lxor_lor _ _ Hland). symmetry.
  apply N.add_nocarry_lxor. exact Hland.
Qed.

Lemma hex_digit_char (d : N) : (d < 16)%N -> hex_digit (hex_char d) = Some d.
Proof.
  intros Hd.
  assert (H : (d = 0 \/ d = 1 \/ d = 2 \/ d = 3 \/ d = 4 \/ d = 5 \/ d = 6 \/ d = 7
               \/ d = 8 \/ d = 9 \/ d = 10 \/ d = 11 \/ d = 12 \/ d = 13 \/ d = 14
               \/ d = 15)%N) by lia.
  repeat (destruct H as [->|H]; [reflexivity|]). subst. reflexivity.
Qed.

Lemma hex_digits_value (n : N) :
  ((((n / 4096) * 16 + (n / 256) mod 16) * 16 + (n / 16) mod 16) * 16 + n mod 16 = n)%N.
Proof.
  assert (H1 : (n / 256 = n / 16 / 16)%N)
    by (rewrite N.Div0.div_div; reflexivity).
  assert (H2 : (n / 4096 = n / 256 / 16)%N)
    by (rewrite N.Div0.div_div; reflexivity).
  pose proof (N.div_mod n 16 ltac:(discriminate)) as E1.
  pose proof (N.div_mod (n / 16) 16 ltac:(discriminate)) as E2.
  pose proof (N.div_mod (n / 256) 16 ltac:(discriminate)) as E3.
  rewrite <- H1 in E2. rewrite <- H2 in E3.
  set (q1 := (n / 16)%N) in *. set (q2 := (n / 256)%N) in *.
  set (q3 := (n / 4096)%N) in *. set (r0 := (n mod 16)%N) in *.
  set (r1 := (q1 mod 16)%N) in *. set (r2 := (q2 mod 16)%N) in *.
  clearbody q1 q2 q3 r0 r1 r2. lia.
Qed.

Lemma hex4_hex4s (n : N) :
  (n < 65536)%N ->
  exists h1 h2 h3 h4,
    hex4s n = String h1 (String h2 (String h3 (String h4 EmptyString)))
    /\ hex4 h1 h2 h3 h4 = Some n.
Proof.
  intros Hn. eexists _, _, _, _. split; [reflexivity|].
  unfold hex4.
  rewrite !hex_digit_char.
  - f_equal. apply hex_digits_value.
  - apply N.mod_upper_bound. discriminate.
  - apply N.mod_upper_bound. discriminate.
  - apply N.mod_upper_bound. discriminate.
  - apply N.Div0.div_lt_upper_bound. exact Hn.
Qed.
End Chars.

Section Strings.
Import Json.

Lemma scanstring_plain (c : ascii) (r : string) :
  Ascii.eqb c quote = false -> Ascii.eqb c backslash = false ->
  (code c <? 32)%N = false ->
  scanstring (String c r) = cons_fst (code c) (scanstring r).
Proof.
  intros H1 H2 H3. cbn [scanstring]. rewrite H1, H2, H3. reflexivity.
Qed.

Lemma scanstring_unit (h1 h2 h3 h4 : ascii) (uni : N) (r : string) :
  hex4 h1 h2 h3 h4 = Some uni -> is_high_surrogate uni = false ->
  scanstring (String backslash (String "u"
               (String h1 (String h2 (String h3 (String h4 r))))))
  = cons_fst uni (scanstring r).
Proof.
  intros H1 H2. cbn [scanstring].
  change (Ascii.eqb backslash quote) with false.
  change (Ascii.eqb backslash backslash) with true.
  change (Ascii.eqb "u" "u") with true.
  cbv iota. rewrite H1, H2. reflexivity.
Qed.

Lemma scanstring_pair (h1 h2 h3 h4 g1 g2 g3 g4 : ascii) (hi lo : N) (r : string) :
  hex4 h1 h2 h3 h4 = Some hi -> is_high_surrogate hi = true ->
  hex4 g1 g2 g3 g4 = Some lo -> is_low_surrogate lo = true ->
  scanstring (String backslash (String "u"
               (String h1 (String h2 (String h3 (String h4
                 (String backslash (String "u"
                   (String g1 (String g2 (String g3 (String g4 r))))))))))))
  = cons_fst (join_surrogates hi lo) (scanstring r).
Proof.
  intros H1 H2 H3 H4. cbn [scanstring].
  change (Ascii.eqb backslash quote) with false.
  change (Ascii.eqb backslash backslash) with true.
  change (Ascii.eqb "u" "u") with true.
  cbv iota. rewrite H1, H2. cbn [andb]. rewrite H3, H4. reflexivity.
Qed.

Lemma surrogate_pair (n : N) :
  (65536 <= n < 1114112)%N ->
  let n' := (n - 65536)%N in
  let s1 := N.lor 55296 (N.land (N.shiftr n' 10) 1023) in
  let s2 := N.lor 56320 (N.land n' 1023) in
  is_high_surrogate s1 = true /\ is_low_surrogate s2 = true
  /\ (s1 < 65536)%N /\ (s2 < 65536)%N
  /\ join_surrogates s1 s2 = n.
Proof.
  intros Hn n' s1 s2.
  assert (Hn' : (n' < 1048576)%N) by (unfold n'; lia).
  assert (Hq : (n' / 1024 < 1024)%N)
    by (apply N.Div0.div_lt_upper_bound; exact Hn').
  assert (Hr : (n' mod 1024 < 1024)%N) by (apply N.mod_upper_bound; discriminate).
  assert (E1 : s1 = (55296 + n' / 1024)%N).
  { unfold s1. change 1023%N with (N.ones 10).
    rewrite N.land_ones, N.shiftr_div_pow2. change (2 ^ 10)%N with 1024%N.
    rewrite (N.mod_small _ _ Hq).
    change 55296%N with (54 * 2 ^ 10)%N.
    apply lor_shift_add. exact Hq. }
  assert (E2 : s2 = (56320 + n' mod 1024)%N).
  { unfold s2. change 1023%N with (N.ones 10).
    rewrite N.land_ones. change (2 ^ 10)%N with 1024%N.
    change 56320%N with (55 * 2 ^ 10)%N.
    apply lor_shift_add. exact Hr. }
  pose proof (N.div_mod n' 1024 ltac:(discriminate)) as Hdm.
  unfold is_high_surrogate, is_low_surrogate, join_surrogates.
  rewrite E1, E2. clear E1 E2 s1 s2.
  set (q := (n' / 1024)%N) in *. set (m := (n' mod 1024)%N) in *.
  clearbody q m.
  replace (55296 + q - 55296)%N with q by lia.
  replace (56320 + m - 56320)%N with m by lia.
  rewrite N.shiftl_mul_pow2, lor_shift_add by exact Hr.
  change (2 ^ 10)%N with 1024%N.
  repeat split.
  - apply andb_true_intro. split; apply N.leb_le; lia.
  - apply andb_true_intro. split; apply N.leb_le; lia.
  - lia.
  - lia.
  - unfold n' in *. lia.
Qed.

Lemma scanstring_escape (n : N) (r : string) :
  is_scalar n = true ->
  scanstring (String.append (escape n) r) = cons_fst n (scanstring r).
Proof.
  intros Hs. unfold escape.
  destruct (n =? 34)%N eqn:E34; [apply N.eqb_eq in E34; subst; reflexivity|].
  destruct (n =? 92)%N eqn:E92; [apply N.eqb_eq in E92; subst; reflexivity|].
  destruct (n =? 10)%N eqn:E10; [apply N.eqb_eq in E10; subst; reflexivity|].
  destruct (n =? 13)%N eqn:E13; [apply N.eqb_eq in E13; subst; reflexivity|].
  destruct (n =? 9)%N eqn:E9; [apply N.eqb_eq in E9; subst; reflexivity|].
  destruct (n =? 12)%N eqn:E12; [apply N.eqb_eq in E12; subst; reflexivity|].
  destruct (n =? 8)%N eqn:E8; [apply N.eqb_eq in E8; subst; reflexivity|].
  apply N.eqb_neq in E34, E92.
  destruct ((32 <=? n) && (n <=? 126))%N eqn:Eprint.
  - apply andb_true_iff in Eprint. destruct Eprint as [Hlo Hhi].
    apply N.leb_le in Hlo, Hhi.
    cbn [String.append].
    rewrite scanstring_plain.
    + rewrite code_of_N by lia. reflexivity.
    + rewrite eqb_code, code_of_N by lia. apply N.eqb_neq. exact E34.
    + rewrite eqb_code, code_of_N by lia. apply N.eqb_neq. exact E92.
    + rewrite code_of_N by lia. apply N.ltb_ge. exact Hlo.
  - unfold is_scalar in Hs.
    destruct (n <? 65536)%N eqn:Ebmp.
    + apply N.ltb_lt in Ebmp.
      destruct (hex4_hex4s n Ebmp) as (h1 & h2 & h3 & h4 & Hh & Hv).
      unfold uescape. rewrite Hh. cbn [String.append].
      apply scanstring_unit; [exact Hv|].
      unfold is_high_surrogate.
      apply orb_true_iff in Hs. destruct Hs as [Hs|Hs].
      * apply N.ltb_lt in Hs. apply andb_false_intro1. apply N.leb_gt. exact Hs.
      * apply andb_true_iff in Hs. destruct Hs as [Hs _]. apply N.ltb_lt in Hs.
        apply andb_false_intro2. apply N.leb_gt. lia.
    + apply N.ltb_ge in Ebmp.
      assert (Hn : (65536 <= n < 1114112)%N).
      { split; [exact Ebmp|].
        apply orb_true_iff in Hs. destruct Hs as [Hs|Hs].
        - apply N.ltb_lt in Hs. lia.
        - apply andb_true_iff in Hs. destruct Hs as [_ Hs]. apply N.ltb_lt, Hs. }
      destruct (surrogate_pair n Hn) as (Hhi & Hlo & Hb1 & Hb2 & Hj).
      cbv zeta.
      destruct (hex4_hex4s _ Hb1) as (h1 & h2 & h3 & h4 & Hh & Hv).
      destruct (hex4_hex4s _ Hb2) as (g1 & g2 & g3 & g4 & Hg & Hw).
      unfold uescape. rewrite Hh, Hg. cbn [String.append].
      rewrite (scanstring_pair _ _ _ _ _ _ _ _ _ _ _ Hv Hhi Hw Hlo).
      rewrite Hj. reflexivity.
Qed.

Lemma append_assoc (a b c : string) :
  String.append (String.append a b) c = String.append a (String.append b c).
Proof. induction a as [|x a IH]; simpl; [reflexivity|]. rewrite IH. reflexivity. Qed.

Lemma scanstring_encode (s : list N) (r : string) :
  forallb is_scalar s = true ->
  scanstring (String.append (escape_all s) (String quote r)) = Some (s, r).
Proof.
  induction s as [|n s IH]; intros Hs.
  - reflexivity.
  - cbn [forallb] in Hs. apply andb_true_iff in Hs. destruct Hs as [Hn Hs].
    cbn [escape_all]. rewrite append_assoc.
    rewrite scanstring_escape by exact Hn.
    rewrite IH by exact Hs. reflexivity.
Qed.
End Strings.

Section Delimiters.
Import Json.

Lemma ends_value_cases (rest : string) :
  ends_value rest = true ->
  rest = EmptyString
  \/ exists c r, rest = String c r /\ (c = "," \/ c = "]" \/ c = "}")%char.
Proof.
  destruct rest as [|c r]; [auto|]. simpl. intros H. right. exists c, r.
  split; [reflexivity|].
  apply orb_true_iff in H. destruct H as [H|H].
  - apply orb_true_iff in H. destruct H as [H|H]; apply Ascii.eqb_eq in H; auto.
  - apply Ascii.eqb_eq in H. auto.
Qed.

End Delimiters.

Ltac by_ends_value H :=
  let c := fresh "c" in
  let r := fresh "r" in
  let E := fresh "E" in
  destruct (ends_value_cases _ H) as [E | (c & r & E & [E' | [E' | E']])];
  subst.

Section Numbers.
Import Json.

Lemma take_digits_app (s rest : string) :
  ends_value rest = true ->
  take_digits (String.append s rest)
  = (fst (take_digits s), String.append (snd (take_digits s)) rest).
Proof.
  intros Hr. induction s as [|c s IH].
  - by_ends_value Hr; reflexivity.
  - cbn [String.append take_digits].
    destruct (is_digit c); [|reflexivity].
    rewrite IH. destruct (take_digits s). reflexivity.
Qed.

Lemma scan_frac_app (s rest : string) :
  ends_value rest = true ->
  scan_frac (String.append s rest)
  = (fst (scan_frac s), String.append (snd (scan_frac s)) rest).
Proof.
  intros Hr. destruct s as [|c s].
  - by_ends_value Hr; reflexivity.
  - cbn [String.append]. unfold scan_frac.
    destruct (Ascii.eqb c "."); [|reflexivity].
    rewrite (take_digits_app s rest Hr).
    destruct (take_digits s) as [[|d ds] r0]; reflexivity.
Qed.

Lemma scan_exp_app (s rest : string) :
  ends_value rest = true ->
  scan_exp (String.append s rest)
  = (fst (scan_exp s), String.append (snd (scan_exp s)) rest).
Proof.
  intros Hr. destruct s as [|e s].
  - by_ends_value Hr; reflexivity.
  - cbn [String.append]. unfold scan_exp.
    destruct (Ascii.eqb e "e" || Ascii.eqb e "E"); [|reflexivity].
    destruct s as [|g s].
    + by_ends_value Hr; reflexivity.
    + cbn [String.append].
      destruct (Ascii.eqb g "-" || Ascii.eqb g "+").
      * rewrite (take_digits_app s rest Hr).
        destruct (take_digits s) as [[|d ds] r0]; reflexivity.
      * change (String g (String.append s rest))
          with (String.append (String g s) rest).
        rewrite (take_digits_app (String g s) rest Hr).
        destruct (take_digits (String g s)) as [[|d ds] r0]; reflexivity.
Qed.

Lemma scan_integer_app (s rest : string) (digits r0 : string) :
  ends_value rest = true ->
  scan_integer s = Some (digits, r0) ->
  scan_integer (String.append s rest) = Some (digits, String.append r0 rest).
Proof.
  intros Hr. destruct s as [|c s]; [discriminate|].
  cbn [String.append]. unfold scan_integer.
  destruct (Ascii.eqb c "0").
  - intros [= <- <-]. reflexivity.
  - destruct (in_range 49 57 c); [|discriminate].
    rewrite (take_digits_app s rest Hr).
    destruct (take_digits s) as [ds r1]. intros [= <- <-]. reflexivity.
Qed.

Lemma scan_unsigned_app (neg : bool) (s rest : string) (v : value) (r0 : string) :
  ends_value rest = true ->
  scan_unsigned neg s = Some (v, r0) ->
  scan_unsigned neg (String.append s rest) = Some (v, String.append r0 rest).
Proof.
  intros Hr H. unfold scan_unsigned in *.
  destruct (scan_integer s) as [[digits r]|] eqn:Hi; [|discriminate].
  rewrite (scan_integer_app _ _ _ _ Hr Hi).
  rewrite (scan_frac_app r rest Hr).
  destruct (scan_frac r) as [frac r1]. cbn [fst snd].
  rewrite (scan_exp_app r1 rest Hr).
  destruct (scan_exp r1) as [exp r2]. cbn [fst snd].
  cbv zeta in *.
  destruct frac, exp; injection H as <- <-; reflexivity.
Qed.

Lemma scan_number_app (s rest : string) (v : value) (r0 : string) :
  ends_value rest = true ->
  scan_number s = Some (v, r0) ->
  scan_number (String.append s rest) = Some (v, String.append r0 rest).
Proof.
  intros Hr. unfold scan_number.
  destruct s as [|c s]; [discriminate|].
  cbn [String.append]. destruct (Ascii.eqb c "-").
  - apply scan_unsigned_app, Hr.
  - apply (scan_unsigned_app false (String c s)), Hr.
Qed.
End Numbers.

Section Integers.
Import Json.

Lemma to_uint_starts_nonzero (p : positive) : starts_nonzero (Pos.to_uint p).
Proof.
  pose proof (DecimalPos.Unsigned.to_of (Pos.to_uint p)) as Hnorm.
  rewrite DecimalPos.Unsigned.of_to in Hnorm. simpl in Hnorm.
  pose proof (DecimalPos.Unsigned.to_uint_nonzero p) as Hnz.
  pose proof (DecimalPos.Unsigned.to_uint_nonnil p) as Hnn.
  destruct (Pos.to_uint p) as [|d|d|d|d|d|d|d|d|d|d] eqn:E; simpl; auto.
  exfalso.
  assert (Hhead : Decimal.nzhead (Decimal.D0 d) <> Decimal.Nil).
  { intros Hnil. apply DecimalFacts.unorm_0 in Hnil. congruence. }
  rewrite (DecimalFacts.unorm_nzhead _ Hhead) in Hnorm.
  apply (DecimalFacts.nzhead_nonzero (Decimal.D0 d) d). congruence.
Qed.

Lemma take_digits_uint (d : Decimal.uint) (rest : string) :
  ends_value rest = true ->
  take_digits (String.append (NilEmpty.string_of_uint d) rest)
  = (NilEmpty.string_of_uint d, rest).
Proof.
  intros Hr. induction d; cbn [NilEmpty.string_of_uint String.append];
    try (cbn [take_digits]; change (is_digit _) with true; cbv iota;
         rewrite IHd; reflexivity).
  by_ends_value Hr; reflexivity.
Qed.

Lemma int_of_digits_acc (d : Decimal.uint) (acc : positive) :
  int_of_digits (Z.pos acc) (NilEmpty.string_of_uint d)
  = Z.pos (Pos.of_uint_acc d acc).
Proof.
  revert acc. induction d; intros acc;
    cbn [NilEmpty.string_of_uint int_of_digits Pos.of_uint_acc];
    [reflexivity| | | | | | | | | |];
    match goal with
    | |- int_of_digits ?x _ = Z.pos (Pos.of_uint_acc _ ?y) =>
        replace x with (Z.pos y) by (cbn; lia)
    end; apply IHd.
Qed.

Lemma int_of_digits_uint (d : Decimal.uint) :
  int_of_digits 0 (NilEmpty.string_of_uint d) = Z.of_N (Pos.of_uint d).
Proof.
  induction d; cbn [NilEmpty.string_of_uint int_of_digits Pos.of_uint];
    [reflexivity|exact IHd| | | | | | | | |];
    match goal with
    | |- int_of_digits ?x _ = Z.of_N (N.pos (Pos.of_uint_acc _ ?y)) =>
        change x with (Z.pos y)
    end; apply int_of_digits_acc.
Qed.

Lemma scan_unsigned_pos (neg : bool) (p : positive) (rest : string) :
  ends_value rest = true ->
  scan_unsigned neg (String.append (NilEmpty.string_of_uint (Pos.to_uint p)) rest)
  = Some (Int (if neg then Z.neg p else Z.pos p), rest).
Proof.
  intros Hr.
  pose proof (to_uint_starts_nonzero p) as Hnz.
  pose proof (int_of_digits_uint (Pos.to_uint p)) as Hval.
  rewrite DecimalPos.Unsigned.of_to in Hval.
  assert (Hint : scan_integer (String.append (NilEmpty.string_of_uint (Pos.to_uint p)) rest)
                 = Some (NilEmpty.string_of_uint (Pos.to_uint p), rest)).
  { destruct (Pos.to_uint p); try contradiction;
      cbn [NilEmpty.string_of_uint String.append]; unfold scan_integer;
      change (Ascii.eqb _ "0") with false; change (in_range 49 57 _) with true;
      cbv iota; rewrite take_digits_uint by exact Hr; reflexivity. }
  unfold scan_unsigned. rewrite Hint.
  assert (Hfrac : scan_frac rest = (EmptyString, rest)) by (by_ends_value Hr; reflexivity).
  assert (Hexp : scan_exp rest = (EmptyString, rest)) by (by_ends_value Hr; reflexivity).
  rewrite Hfrac, Hexp. cbv zeta. rewrite Hval. destruct neg; reflexivity.
Qed.

Lemma scan_number_int (n : Z) (rest : string) :
  ends_value rest = true ->
  scan_number (String.append (Py.str_of_int n) rest) = Some (Int n, rest).
Proof.
  intros Hr. unfold Py.str_of_int.
  destruct n as [|p|p]; cbn [Z.to_int NilZero.string_of_int].
  - cbn. by_ends_value Hr; reflexivity.
  - unfold NilZero.string_of_uint.
    pose proof (to_uint_starts_nonzero p) as Hnz.
    pose proof (scan_unsigned_pos false p rest Hr) as H.
    destruct (Pos.to_uint p) eqn:E; try contradiction;
      cbn [NilEmpty.string_of_uint String.append] in *; unfold scan_number;
      change (Ascii.eqb _ "-") with false; cbv iota; exact H.
  - unfold NilZero.string_of_uint.
    pose proof (to_uint_starts_nonzero p) as Hnz.
    pose proof (scan_unsigned_pos true p rest Hr) as H.
    cbn [String.append]. unfold scan_number.
    change (Ascii.eqb "-" "-") with true. cbv iota.
    destruct (Pos.to_uint p) eqn:E; try contradiction; exact H.
Qed.
End Integers.

Section Values.
Import Json.

Lemma need_arr items : need (Arr items) = S (items_need items).
Proof. reflexivity. Qed.

Lemma need_obj items : need (Obj items) = S (pairs_need items).
Proof. reflexivity. Qed.

Lemma dumps_arr v1 vs :
  dumps (Arr (v1 :: vs)) = String "[" (String.append (dumps v1) (arr_more vs)).
Proof. reflexivity. Qed.

Lemma dumps_obj k1 v1 kvs :
  dumps (Obj ((k1, v1) :: kvs))
  = String "{" (String.append (encode_string k1)
      (String.append ": " (String.append (dumps v1) (obj_more kvs)))).
Proof. reflexivity. Qed.

Lemma well_formed_obj items :
  well_formed (Obj items)
  = distinct (map fst items)
    && forallb (fun kv => forallb is_scalar (fst kv)) items
    && pairs_well_formed items.
Proof. reflexivity. Qed.

End Values.

Ltac eval_codes :=
  repeat match goal with
         | |- context [Json.code (Ascii ?b0 ?b1 ?b2 ?b3 ?b4 ?b5 ?b6 ?b7)] =>
             let v := eval vm_compute in (Json.code (Ascii b0 b1 b2 b3 b4 b5 b6 b7)) in
             change (Json.code (Ascii b0 b1 b2 b3 b4 b5 b6 b7)) with v
         | |- context [Json.code Json.quote] => change (Json.code Json.quote) with 34%N
         end.

Section Scan.
Import Json.

Lemma skip_ws_head (s : string) : starts_value s -> skip_ws s = s.
Proof.
  intros (c & r & -> & Hws & _). cbn [skip_ws]. rewrite Hws. reflexivity.
Qed.

Lemma skip_ws_space (s : string) : skip_ws (String " " s) = skip_ws s.
Proof. reflexivity. Qed.

Lemma starts_value_app (s t : string) : starts_value s -> starts_value (String.append s t).
Proof.
  intros (c & r & -> & Hws & Hbr). exists c, (String.append r t). auto.
Qed.

Lemma scan_number_head (s : string) res :
  scan_number s = Some res ->
  exists c r, s = String c r /\ (c = "-"%char \/ is_digit c = true).
Proof.
  destruct s as [|c r]; [discriminate|]. intros H. exists c, r.
  split; [reflexivity|]. unfold scan_number in H.
  destruct (Ascii.eqb c "-") eqn:E; [left; apply Ascii.eqb_eq, E|]. right.
  unfold scan_unsigned, scan_integer in H.
  destruct (Ascii.eqb c "0") eqn:E0.
  - apply Ascii.eqb_eq in E0. subst. reflexivity.
  - destruct (in_range 49 57 c) eqn:Er; [|discriminate].
    unfold is_digit, in_range in *.
    apply andb_true_iff in Er. destruct Er as [H1 H2].
    apply N.leb_le in H1. rewrite H2, andb_true_r. apply N.leb_le. lia.
Qed.

Lemma number_start_facts (c : ascii) :
  c = "-"%char \/ is_digit c = true ->
  is_ws c = false /\ Ascii.eqb c "]" = false /\ Ascii.eqb c quote = false
  /\ Ascii.eqb c "{" = false /\ Ascii.eqb c "[" = false
  /\ Ascii.eqb "n" c = false /\ Ascii.eqb "t" c = false /\ Ascii.eqb "f" c = false.
Proof.
  intros [->|H]; [repeat split; reflexivity|].
  unfold is_digit, in_range in H. apply andb_true_iff in H. destruct H as [H1 H2].
  apply N.leb_le in H1, H2.
  unfold is_ws. rewrite !eqb_code. eval_codes.
  set (x := code c) in *. clearbody x.
  repeat split; rewrite ?orb_false_iff; repeat split; apply N.eqb_neq; lia.
Qed.

Lemma scan_once_number (f : nat) (s : string) res :
  scan_number s = Some res -> scan_once (S f) s = Some res.
Proof.
  intros H. destruct (scan_number_head s res H) as (c & r & -> & Hc).
  destruct (number_start_facts c Hc) as (_ & _ & Hq & Hb & Hk & Hn & Ht & Hf).
  cbn [scan_once strip_prefix]. rewrite Hq, Hb, Hk, Hn, Ht, Hf, H. reflexivity.
Qed.

Lemma float_repr_literal (numeral : string) :
  is_float_literal numeral = true ->
  float_repr numeral = numeral /\ scan_number numeral = Some (Float numeral, EmptyString).
Proof.
  intros H. unfold float_repr.
  destruct (String.eqb_spec numeral "nan") as [->|_]; [discriminate|].
  destruct (String.eqb_spec numeral "inf") as [->|_]; [discriminate|].
  destruct (String.eqb_spec numeral "-inf") as [->|_]; [discriminate|].
  split; [reflexivity|].
  unfold is_float_literal in H.
  destruct (scan_number numeral) as [[[| | |s| | |] [|]]|]; try discriminate.
  apply String.eqb_eq in H. subst. reflexivity.
Qed.

Lemma dumps_head (v : value) : well_formed v = true -> starts_value (dumps v).
Proof.
  intros Hwf. destruct v as [|[|]|n|numeral|s|[|v1 vs]|[|[k1 v1] kvs]];
    try (eexists _, _; repeat split; reflexivity).
  - pose proof (scan_number_int n EmptyString eq_refl) as H.
    destruct (scan_number_head _ _ H) as (c & r & E & Hc).
    destruct (number_start_facts c Hc) as (Hws & Hbr & _).
    cbn [dumps]. destruct (Py.str_of_int n) as [|c' r']; [discriminate|].
    cbn [String.append] in E. injection E as -> _.
    exists c, r'. auto.
  - cbn [well_formed] in Hwf.
    destruct (float_repr_literal _ Hwf) as [E H].
    destruct (scan_number_head _ _ H) as (c & r & -> & Hc).
    destruct (number_start_facts c Hc) as (Hws & Hbr & _).
    cbn [dumps]. rewrite E. exists c, r. auto.
Qed.

Lemma ends_value_arr_more vs rest : ends_value (String.append (arr_more vs) rest) = true.
Proof. destruct vs; reflexivity. Qed.

Lemma ends_value_obj_more kvs rest : ends_value (String.append (obj_more kvs) rest) = true.
Proof. destruct kvs as [|[k v] l]; reflexivity. Qed.

Lemma scan_once_bracket (f : nat) (s : string) :
  starts_value s ->
  scan_once (S f) (String "[" s)
  = match array_items f s with
    | Some (vs, r') => Some (Arr vs, r')
    | None => None
    end.
Proof.
  intros (c & r & -> & Hws & Hbr). cbn [scan_once].
  change (Ascii.eqb "[" quote) with false. change (Ascii.eqb "[" "{") with false.
  change (Ascii.eqb "[" "[") with true. cbv iota.
  cbn [skip_ws]. rewrite Hws, Hbr. reflexivity.
Qed.

Lemma array_items_dumps (vs : list value) : forall (v1 : value) (f : nat) (rest : string),
  Forall reads_back (v1 :: vs) ->
  forallb well_formed (v1 :: vs) = true ->
  (items_need (v1 :: vs) <= f)%nat ->
  ends_value rest = true ->
  array_items f (String.append (dumps v1) (String.append (arr_more vs) rest))
  = Some (v1 :: vs, rest).
Proof.
  induction vs as [|v2 vs IH]; intros v1 f rest Hall Hwf Hf Hr.
  - apply Forall_cons in Hall. destruct Hall as [H1 _].
    cbn [forallb] in Hwf. apply andb_true_iff in Hwf. destruct Hwf as [Hw1 _].
    cbn [items_need] in Hf. destruct f as [|f]; [lia|].
    cbn [array_items].
    rewrite (H1 Hw1 f _ ltac:(lia) (ends_value_arr_more [] rest)).
    reflexivity.
  - apply Forall_cons in Hall. destruct Hall as [H1 Hall].
    pose proof Hwf as Hwf'.
    cbn [forallb] in Hwf. apply andb_true_iff in Hwf. destruct Hwf as [Hw1 Hw].
    cbn [items_need] in Hf. destruct f as [|f]; [lia|].
    cbn [array_items].
    rewrite (H1 Hw1 f _ ltac:(cbn [items_need]; lia) (ends_value_arr_more (v2 :: vs) rest)).
    cbn [arr_more String.append skip_ws].
    change (is_ws ",") with false. cbv iota.
    change (Ascii.eqb "," "]") with false. change (Ascii.eqb "," ",") with true.
    cbv iota. rewrite append_assoc, skip_ws_space.
    assert (Hhead : starts_value (String.append (dumps v2) (String.append (arr_more vs) rest))).
    { apply starts_value_app, dumps_head.
      cbn [forallb] in Hw. apply andb_true_iff in Hw. apply Hw. }
    rewrite (skip_ws_head _ Hhead).
    rewrite (IH v2 f rest Hall Hw ltac:(cbn [items_need] in *; lia) Hr).
    reflexivity.
Qed.
End Scan.

Section Objects.
Import Json.

Lemma dict_set_fresh (k : list N) (v : value) (tl : list (list N)) :
  forall acc : list (list N * value),
    distinct (map fst acc ++ k :: tl) = true ->
    dict_set k v acc = acc ++ [(k, v)].
Proof.
  induction acc as [|[k' v'] acc IH]; intros Hd; [reflexivity|].
  cbn [map fst app distinct] in Hd.
  apply andb_true_iff in Hd. destruct Hd as [Hk' Hd].
  cbn [dict_set app].
  rewrite existsb_app in Hk'. cbn [existsb] in Hk'.
  apply negb_true_iff in Hk'.
  apply orb_false_iff in Hk'. destruct Hk' as [_ Hk'].
  apply orb_false_iff in Hk'. destruct Hk' as [Hk' _].
  rewrite bool_decide_eq_false in Hk'.
  rewrite (bool_decide_eq_false_2 (k = k')) by congruence.
  rewrite (IH Hd). reflexivity.
Qed.

Lemma dict_fold (pairs : list (list N * value)) :
  forall acc : list (list N * value),
    distinct (map fst acc ++ map fst pairs) = true ->
    fold_left (fun d kv => dict_set (fst kv) (snd kv) d) pairs acc = acc ++ pairs.
Proof.
  induction pairs as [|[k v] l IH]; intros acc Hd.
  - cbn. rewrite app_nil_r. reflexivity.
  - cbn [fold_left fst snd]. cbn [map fst] in Hd.
    rewrite (dict_set_fresh k v _ acc Hd).
    rewrite IH.
    + rewrite <- app_assoc. reflexivity.
    + rewrite map_app. cbn [map fst]. rewrite <- app_assoc. exact Hd.
Qed.

Lemma dict_distinct (pairs : list (list N * value)) :
  distinct (map fst pairs) = true -> dict pairs = pairs.
Proof. intros Hd. unfold dict. apply (dict_fold pairs []). exact Hd. Qed.

Lemma obj_more_cons k v kvs rest :
  String.append (obj_more ((k, v) :: kvs)) rest
  = String "," (String " " (String quote
      (pair_text k v (String.append (obj_more kvs) rest)))).
Proof.
  cbn [obj_more]. unfold encode_string, pair_text.
  cbn [String.append]. rewrite !append_assoc. cbn [String.append].
  rewrite !append_assoc. reflexivity.
Qed.

Lemma dumps_obj_text k v kvs rest :
  String.append (dumps (Obj ((k, v) :: kvs))) rest
  = String "{" (String quote (pair_text k v (String.append (obj_more kvs) rest))).
Proof.
  rewrite dumps_obj. unfold encode_string, pair_text.
  cbn [String.append]. rewrite !append_assoc. cbn [String.append].
  rewrite !append_assoc. reflexivity.
Qed.

Lemma scan_once_brace (f : nat) (r : string) :
  scan_once (S f) (String "{" (String quote r))
  = match object_items f r with
    | Some (pairs, r') => Some (Obj (dict pairs), r')
    | None => None
    end.
Proof. reflexivity. Qed.

Lemma object_items_dumps (kvs : list (list N * value)) :
  forall (k1 : list N) (v1 : value) (f : nat) (rest : string),
    Forall (fun kv => reads_back (snd kv)) ((k1, v1) :: kvs) ->
    forallb (fun kv => forallb is_scalar (fst kv)) ((k1, v1) :: kvs) = true ->
    pairs_well_formed ((k1, v1) :: kvs) = true ->
    (pairs_need ((k1, v1) :: kvs) <= f)%nat ->
    ends_value rest = true ->
    object_items f (pair_text k1 v1 (String.append (obj_more kvs) rest))
    = Some ((k1, v1) :: kvs, rest).
Proof.
  induction kvs as [|[k2 v2] kvs IH]; intros k1 v1 f rest Hall Hkeys Hwf Hf Hr;
    apply Forall_cons in Hall; destruct Hall as [H1 Hall]; cbn [snd] in H1;
    cbn [forallb fst] in Hkeys; apply andb_true_iff in Hkeys;
    destruct Hkeys as [Hk1 Hkeys];
    cbn [pairs_well_formed] in Hwf; apply andb_true_iff in Hwf;
    destruct Hwf as [Hw1 Hwf];
    cbn [pairs_need] in Hf; (destruct f as [|f]; [lia|]);
    cbn [object_items]; unfold pair_text;
    rewrite (scanstring_encode k1 _ Hk1);
    cbn [skip_ws]; change (is_ws ":") with false; cbv iota;
    change (Ascii.eqb ":" ":") with true; cbv iota;
    rewrite skip_ws_space;
    rewrite (skip_ws_head _ (starts_value_app _ _ (dumps_head v1 Hw1))).
  - rewrite (H1 Hw1 f _ ltac:(lia) (ends_value_obj_more [] rest)).
    reflexivity.
  - rewrite (H1 Hw1 f _ ltac:(cbn [pairs_need]; lia)
               (ends_value_obj_more ((k2, v2) :: kvs) rest)).
    rewrite obj_more_cons.
    cbn [skip_ws]. change (is_ws ",") with false. cbv iota.
    change (Ascii.eqb "," "}") with false. change (Ascii.eqb "," ",") with true.
    cbv iota. rewrite skip_ws_space.
    cbn [skip_ws]. change (is_ws quote) with false. cbv iota.
    change (Ascii.eqb quote quote) with true. cbv iota.
    rewrite (IH k2 v2 f rest Hall Hkeys Hwf ltac:(cbn [pairs_need] in *; lia) Hr).
    reflexivity.
Qed.
End Objects.

Section RoundTrip.
Import Json.

Lemma append_empty (s : string) : String.append s EmptyString = s.
Proof. induction s as [|c s IH]; cbn; congruence. Qed.

Theorem scan_once_dumps (v : value) : reads_back v.
Proof.
  induction v as [| b | n | numeral | s | items IH | items IH] using value_ind';
    intros Hwf fuel rest Hfuel Hr.
  - destruct fuel; [cbn in Hfuel; lia|]. reflexivity.
  - destruct fuel; [cbn in Hfuel; lia|]. destruct b; reflexivity.
  - destruct fuel; [cbn in Hfuel; lia|].
    apply scan_once_number. cbn [dumps]. apply scan_number_int, Hr.
  - destruct fuel; [cbn in Hfuel; lia|].
    cbn [well_formed] in Hwf. destruct (float_repr_literal _ Hwf) as [E H].
    apply scan_once_number. cbn [dumps]. rewrite E.
    apply (scan_number_app _ _ _ _ Hr H).
  - destruct fuel; [cbn in Hfuel; lia|].
    cbn [well_formed] in Hwf. cbn [dumps]. unfold encode_string.
    cbn [String.append]. rewrite append_assoc. cbn [String.append].
    cbn [scan_once]. change (Ascii.eqb quote quote) with true. cbv iota.
    rewrite (scanstring_encode s rest Hwf). reflexivity.
  - destruct items as [|v1 vs].
    + destruct fuel; [cbn in Hfuel; lia|]. reflexivity.
    + rewrite need_arr in Hfuel. destruct fuel; [lia|].
      rewrite dumps_arr. cbn [String.append]. rewrite append_assoc.
      cbn [well_formed] in Hwf.
      rewrite scan_once_bracket.
      * rewrite (array_items_dumps vs v1 fuel rest IH Hwf ltac:(lia) Hr). reflexivity.
      * apply starts_value_app, dumps_head.
        cbn [forallb] in Hwf. apply andb_true_iff in Hwf. apply Hwf.
  - destruct items as [|[k1 v1] kvs].
    + destruct fuel; [cbn in Hfuel; lia|]. reflexivity.
    + rewrite need_obj in Hfuel. destruct fuel; [lia|].
      rewrite well_formed_obj in Hwf.
      apply andb_true_iff in Hwf. destruct Hwf as [Hwf Hpairs].
      apply andb_true_iff in Hwf. destruct Hwf as [Hdist Hkeys].
      rewrite dumps_obj_text, scan_once_brace.
      rewrite (object_items_dumps kvs k1 v1 fuel rest IH Hkeys Hpairs ltac:(lia) Hr).
      rewrite (dict_distinct _ Hdist). reflexivity.
Qed.
End RoundTrip.

Section Fuel.
Import Json.

Lemma length_append (a b : string) :
  String.length (String.append a b) = (String.length a + String.length b)%nat.
Proof. induction a as [|c a IH]; cbn; congruence. Qed.

Lemma starts_value_length (s : string) : starts_value s -> (1 <= String.length s)%nat.
Proof. intros (c & r & -> & _). cbn. lia. Qed.

Lemma items_need_bound (vs : list value) :
  Forall fuel_bound vs -> forallb well_formed vs = true ->
  (items_need vs <= 2 * String.length (arr_more vs))%nat.
Proof.
  induction vs as [|v vs IH]; intros Hall Hwf; [cbn; lia|].
  apply Forall_cons in Hall. destruct Hall as [Hv Hall].
  cbn [forallb] in Hwf. apply andb_true_iff in Hwf. destruct Hwf as [Hw Hwf].
  specialize (Hv Hw). specialize (IH Hall Hwf).
  cbn [items_need arr_more]. rewrite !length_append. cbn [String.length]. lia.
Qed.

Lemma pairs_need_bound (kvs : list (list N * value)) :
  Forall (fun kv => fuel_bound (snd kv)) kvs -> pairs_well_formed kvs = true ->
  (pairs_need kvs <= 2 * String.length (obj_more kvs))%nat.
Proof.
  induction kvs as [|[k v] kvs IH]; intros Hall Hwf; [cbn; lia|].
  apply Forall_cons in Hall. destruct Hall as [Hv Hall]. cbn [snd] in Hv.
  cbn [pairs_well_formed] in Hwf. apply andb_true_iff in Hwf. destruct Hwf as [Hw Hwf].
  specialize (Hv Hw). specialize (IH Hall Hwf).
  cbn [pairs_need obj_more]. rewrite !length_append. cbn [String.length]. lia.
Qed.

Lemma need_bound (v : value) : fuel_bound v.
Proof.
  induction v as [| b | n | numeral | s | items IH | items IH] using value_ind';
    intros Hwf;
    try (pose proof (starts_value_length _ (dumps_head _ Hwf)); cbn [need]; lia).
  - destruct items as [|v1 vs]; [cbn; lia|].
    cbn [well_formed] in Hwf.
    pose proof (items_need_bound _ IH Hwf) as Hb.
    rewrite need_arr, dumps_arr. cbn [String.length]. rewrite length_append.
    cbn [items_need] in *. cbn [arr_more] in Hb.
    pose proof (fun l => items_need_bound l) as _.
    apply Forall_cons in IH. destruct IH as [H1 IH].
    cbn [forallb] in Hwf. apply andb_true_iff in Hwf. destruct Hwf as [Hw1 Hwf].
    specialize (H1 Hw1). pose proof (items_need_bound _ IH Hwf). lia.
  - destruct items as [|[k1 v1] kvs]; [cbn; lia|].
    rewrite well_formed_obj in Hwf.
    apply andb_true_iff in Hwf. destruct Hwf as [_ Hwf].
    rewrite need_obj, dumps_obj. cbn [String.length]. rewrite !length_append.
    apply Forall_cons in IH. destruct IH as [H1 IH]. cbn [snd] in H1.
    cbn [pairs_well_formed] in Hwf. apply andb_true_iff in Hwf.
    destruct Hwf as [Hw1 Hwf].
    specialize (H1 Hw1). pose proof (pairs_need_bound _ IH Hwf).
    cbn [pairs_need]. lia.
Qed.

(** Reading back what was written. *)
Theorem loads_dumps (v : value) :
  well_formed v = true -> loads (dumps v) = Some v.
Proof.
  intros Hwf. unfold loads.
  rewrite (skip_ws_head _ (dumps_head v Hwf)).
  rewrite <- (append_empty (dumps v)) at 2.
  rewrite (scan_once_dumps v Hwf _ EmptyString); [reflexivity| |reflexivity].
  pose proof (need_bound v Hwf). lia.
Qed.
End Fuel.






(** ** Parallel dispatch *)

Lemma sum_list_with_insert {A} (f : A -> nat) (l : list A) (i : nat) (x y : A) :
  l !! i = Some y ->
  (sum_list_with f (<[i := x]> l) + f y = sum_list_with f l + f x)%nat.
Proof.
  revert i. induction l as [|a l IH]; intros [|i] H; simpl in *; try discriminate.
  - injection H as ->. lia.
  - specialize (IH i H). lia.
Qed.

Lemma queued_hold_nothing (ps : list string) :
  sum_list_with Sched.held ((fun _ => Sched.Queued) <$> ps) = 0%nat.
Proof.
  induction ps as [|p ps IH]; [reflexivity|].
  rewrite fmap_cons. cbn [sum_list_with Sched.held]. rewrite IH. reflexivity.
Qed.

Lemma queued_moves_left (ps : list string) :
  sum_list_with Sched.moves_left ((fun _ => Sched.Queued) <$> ps)
  = (2 * length ps)%nat.
Proof.
  induction ps as [|p ps IH]; [reflexivity|].
  rewrite fmap_cons. cbn [sum_list_with Sched.moves_left length].
  rewrite IH. lia.
Qed.

Section ParallelProofs.
Variable self : CLIOrchestrator.
Variable prompts : list string.
Variable worlds : list Os.World.
Variable max_concurrent : Z.

Hypothesis cap_positive : 1 <= max_concurrent.
Hypothesis one_world_each : length worlds = length prompts.
Hypothesis all_spawnable : Forall (fun w => Os.spawnable (Os.child w) = true) worlds.

Local Abbreviation step := (Sched.step self prompts worlds).
Local Abbreviation run := (Sched.run self prompts worlds).
Local Abbreviation invoke_with_limit := (Sched.invoke_with_limit self prompts worlds).
Local Abbreviation init := (Sched.init prompts max_concurrent).
Local Abbreviation reachable_inv := (reachable_inv self prompts worlds max_concurrent).
Local Abbreviation done_inv := (done_inv self prompts worlds).
Local Abbreviation aligned := (aligned self prompts worlds).

Lemma invoke_with_limit_defined i :
  (i < length prompts)%nat -> exists r, invoke_with_limit i = Some (Os.Return r).
Proof using one_world_each all_spawnable.
  intros Hi. unfold Sched.invoke_with_limit.
  destruct (lookup_lt_is_Some_2 prompts i Hi) as [p ->].
  rewrite <- one_world_each in Hi.
  destruct (lookup_lt_is_Some_2 worlds i Hi) as [w Hw]. rewrite Hw.
  pose proof (proj1 (Forall_lookup _ _) all_spawnable i w Hw) as Hs.
  destruct (proj1 (invoke_returns_iff_spawnable self p None None None None w) Hs)
    as [_ (r & w' & Hr)].
  exists r. rewrite Hr. reflexivity.
Qed.

Lemma invoke_with_limit_returns i o :
  invoke_with_limit i = Some o -> exists r, o = Os.Return r.
Proof using one_world_each all_spawnable.
  intros H.
  assert (Hi : (i < length prompts)%nat).
  { unfold Sched.invoke_with_limit in H.
    destruct (prompts !! i) eqn:Hp; [|discriminate].
    eapply lookup_lt_Some, Hp. }
  destruct (invoke_with_limit_defined i Hi) as [r Hr].
  exists r. congruence.
Qed.

Lemma init_inv : reachable_inv init.
Proof using Type.
  clear cap_positive one_world_each all_spawnable.
  unfold reachable_inv, Sched.init, Sched.holding. simpl.
  rewrite length_fmap. repeat split.
  - rewrite queued_hold_nothing. lia.
  - intros i o H. rewrite list_lookup_fmap in H.
    destruct (prompts !! i); discriminate.
Qed.

Lemma init_remaining : Sched.remaining init = (2 * length prompts)%nat.
Proof using Type.
  clear cap_positive one_world_each all_spawnable.
  unfold Sched.remaining, Sched.init. simpl. apply queued_moves_left.
Qed.

Lemma step_inv e s s' :
  reachable_inv s -> step e s = Some s' -> reachable_inv s'.
Proof using one_world_each all_spawnable.
  intros (Hlen & Hperm & Hraised & Hdone) Hstep.
  destruct e as [i | i]; simpl in Hstep.
  - destruct (Sched.tasks s !! i) as [[| |o]|] eqn:Hi; try discriminate.
    destruct (0 <? Sched.permits s) eqn:Hp; [|discriminate].
    injection Hstep as <-. unfold reachable_inv, Sched.holding in *. simpl.
    rewrite length_insert. repeat split; auto.
    + pose proof (sum_list_with_insert Sched.held _ i Sched.Holding _ Hi) as Hs.
      simpl in Hs. lia.
    + intros j o Hj. destruct (decide (i = j)) as [->|Hne].
      * rewrite list_lookup_insert_eq in Hj; [discriminate|].
        eapply lookup_lt_Some, Hi.
      * rewrite list_lookup_insert_ne in Hj by exact Hne. eauto.
  - destruct (Sched.tasks s !! i) as [[| |o']|] eqn:Hi; try discriminate.
    destruct (invoke_with_limit i) as [o|] eqn:Ho; [|discriminate].
    injection Hstep as <-. unfold reachable_inv, Sched.holding in *. simpl.
    rewrite length_insert. repeat split; auto.
    + pose proof (sum_list_with_insert Sched.held _ i (Sched.Done o) _ Hi) as Hs.
      simpl in Hs. lia.
    + destruct (invoke_with_limit_returns i o Ho) as [r ->].
      rewrite Hraised. reflexivity.
    + intros j o2 Hj. destruct (decide (i = j)) as [->|Hne].
      * rewrite list_lookup_insert_eq in Hj by (eapply lookup_lt_Some, Hi).
        congruence.
      * rewrite list_lookup_insert_ne in Hj by exact Hne. eauto.
Qed.

Lemma step_remaining e s s' :
  step e s = Some s' -> Sched.remaining s = S (Sched.remaining s').
Proof using Type.
  clear cap_positive one_world_each all_spawnable.
  intros Hstep. destruct e as [i | i]; simpl in Hstep.
  - destruct (Sched.tasks s !! i) as [[| |o]|] eqn:Hi; try discriminate.
    destruct (0 <? Sched.permits s); [|discriminate].
    injection Hstep as <-. unfold Sched.remaining. simpl.
    pose proof (sum_list_with_insert Sched.moves_left _ i Sched.Holding _ Hi) as Hs.
    simpl in Hs. lia.
  - destruct (Sched.tasks s !! i) as [[| |o']|] eqn:Hi; try discriminate.
    destruct (invoke_with_limit i) as [o|]; [|discriminate].
    injection Hstep as <-. unfold Sched.remaining. simpl.
    pose proof (sum_list_with_insert Sched.moves_left _ i (Sched.Done o) _ Hi) as Hs.
    simpl in Hs. lia.
Qed.

Lemma run_inv sched : forall s s',
  reachable_inv s -> run sched s = Some s' -> reachable_inv s'.
Proof using one_world_each all_spawnable.
  induction sched as [|e sched IH]; intros s s' Hinv Hrun; simpl in Hrun.
  - injection Hrun as <-. exact Hinv.
  - destruct (step e s) as [s1|] eqn:Hstep; [|discriminate].
    eapply IH; [eapply step_inv; eauto | exact Hrun].
Qed.

Lemma run_remaining sched : forall s s',
  run sched s = Some s' ->
  Sched.remaining s = (length sched + Sched.remaining s')%nat.
Proof using Type.
  clear cap_positive one_world_each all_spawnable.
  induction sched as [|e sched IH]; intros s s' Hrun; simpl in Hrun.
  - injection Hrun as <-. reflexivity.
  - destruct (step e s) as [s1|] eqn:Hstep; [|discriminate].
    rewrite (step_remaining _ _ _ Hstep), (IH _ _ Hrun). simpl. lia.
Qed.

Lemma run_done sched : forall s s',
  done_inv s -> run sched s = Some s' -> done_inv s'.
Proof using Type.
  clear cap_positive one_world_each all_spawnable.
  induction sched as [|e sched IH]; intros s s' Hinv Hrun; simpl in Hrun.
  - injection Hrun as <-. exact Hinv.
  - destruct (step e s) as [s1|] eqn:Hstep; [|discriminate].
    apply (IH s1 s'); [|exact Hrun].
    clear IH Hrun. intros j o Hj.
    destruct e as [i | i]; simpl in Hstep.
    + destruct (Sched.tasks s !! i) as [[| |o']|] eqn:Hi; try discriminate.
      destruct (0 <? Sched.permits s); [|discriminate].
      injection Hstep as <-. simpl in Hj.
      destruct (decide (i = j)) as [->|Hne].
      * rewrite list_lookup_insert_eq in Hj by (eapply lookup_lt_Some, Hi).
        discriminate.
      * rewrite list_lookup_insert_ne in Hj by exact Hne. eauto.
    + destruct (Sched.tasks s !! i) as [[| |o']|] eqn:Hi; try discriminate.
      destruct (invoke_with_limit i) as [o2|] eqn:Ho; [|discriminate].
      injection Hstep as <-. simpl in Hj.
      destruct (decide (i = j)) as [->|Hne].
      * rewrite list_lookup_insert_eq in Hj by (eapply lookup_lt_Some, Hi).
        congruence.
      * rewrite list_lookup_insert_ne in Hj by exact Hne. eauto.
Qed.

Lemma init_done : done_inv init.
Proof using Type.
  clear cap_positive one_world_each all_spawnable.
  intros i o H. unfold Sched.init in H. simpl in H.
  rewrite list_lookup_fmap in H. destruct (prompts !! i); discriminate.
Qed.

Lemma gather_aligned s out :
  reachable_inv s -> Sched.gather s = Some out ->
  exists rs, out = Os.Return rs /\ aligned rs.
Proof using Type.
  clear cap_positive one_world_each all_spawnable.
  intros (Hlen & _ & Hraised & Hdone) Hg.
  unfold Sched.gather in Hg. rewrite Hraised in Hg.
  destruct (mapM Sched.returned (Sched.tasks s)) as [rs|] eqn:Hm; [|discriminate].
  injection Hg as <-. exists rs. split; [reflexivity|].
  apply mapM_Some in Hm.
  split.
  - rewrite <- (Forall2_length _ _ _ Hm). exact Hlen.
  - intros i prompt w Hp Hw.
    assert (Hi : (i < length (Sched.tasks s))%nat).
    { rewrite Hlen. eapply lookup_lt_Some, Hp. }
    destruct (lookup_lt_is_Some_2 _ _ Hi) as [t Ht].
    destruct (Forall2_lookup_l _ _ _ _ _ Hm Ht) as (r & Hr & Hret).
    exists r. split; [exact Hr|].
    destruct t as [| |[r'|e]]; try discriminate.
    injection Hret as ->.
    specialize (Hdone i _ Ht). unfold Sched.invoke_with_limit in Hdone.
    rewrite Hp, Hw in Hdone. congruence.
Qed.

Lemma mapM_returned_none (l : list Sched.Task) :
  mapM Sched.returned l = None ->
  exists i t, l !! i = Some t /\ Sched.returned t = None.
Proof using Type.
  clear cap_positive one_world_each all_spawnable.
  induction l as [|t l IH]; simpl; [discriminate|].
  destruct (Sched.returned t) as [r|] eqn:Ht.
  - simpl. destruct (mapM Sched.returned l) as [rs|] eqn:Hl; [discriminate|].
    intros _. destruct (IH eq_refl) as (i & t' & Hi & Ht').
    exists (S i), t'. auto.
  - intros _. exists 0%nat, t. auto.
Qed.

Lemma some_task_holding (l : list Sched.Task) :
  (0 < sum_list_with Sched.held l)%nat -> exists j, l !! j = Some Sched.Holding.
Proof using Type.
  clear cap_positive one_world_each all_spawnable.
  induction l as [|t l IH]; simpl; [lia|].
  destruct t as [| |o]; simpl; intros H.
  - destruct (IH H) as [j Hj]. exists (S j). exact Hj.
  - exists 0%nat. reflexivity.
  - destruct (IH H) as [j Hj]. exists (S j). exact Hj.
Qed.

Lemma holding_can_finish s j :
  reachable_inv s -> Sched.tasks s !! j = Some Sched.Holding ->
  Sched.can_move self prompts worlds s.
Proof using one_world_each all_spawnable.
  intros (Hlen & _) Hj.
  assert (Hlt : (j < length prompts)%nat).
  { rewrite <- Hlen. eapply lookup_lt_Some, Hj. }
  destruct (invoke_with_limit_defined j Hlt) as [r Hr].
  exists (Sched.Finish j). eexists. simpl. rewrite Hj, Hr. reflexivity.
Qed.

(** No deadlock: while [gather] is not ready, some task can move. *)
Lemma gather_pending_can_move s :
  reachable_inv s -> Sched.gather s = None ->
  Sched.can_move self prompts worlds s.
Proof using cap_positive one_world_each all_spawnable.
  intros Hinv Hg. pose proof Hinv as (Hlen & Hperm & Hraised & Hdone).
  unfold Sched.gather in Hg. rewrite Hraised in Hg.
  destruct (mapM Sched.returned (Sched.tasks s)) as [rs|] eqn:Hm; [discriminate|].
  destruct (mapM_returned_none _ Hm) as (i & t & Hi & Ht).
  destruct t as [| |[r|e]]; try discriminate.
  - destruct (0 <? Sched.permits s) eqn:Hp.
    + exists (Sched.Acquire i). eexists. simpl. rewrite Hi, Hp. reflexivity.
    + apply Z.ltb_ge in Hp.
      assert (Hh : (0 < Sched.holding s)%nat) by lia.
      destruct (some_task_holding _ Hh) as [j Hj].
      eapply holding_can_finish; eauto.
  - eapply holding_can_finish; eauto.
  - destruct (invoke_with_limit_returns i _ (Hdone i _ Hi)) as [r Hr]. discriminate.
Qed.

(** Termination: from a reachable state some schedule gets [gather] ready. *)
Lemma some_schedule_completes n : forall s,
  reachable_inv s -> (Sched.remaining s <= n)%nat ->
  exists sched s', run sched s = Some s' /\ is_Some (Sched.gather s').
Proof using cap_positive one_world_each all_spawnable.
  induction n as [|n IH]; intros s Hinv Hn.
  - destruct (Sched.gather s) as [out|] eqn:Hg.
    + exists [], s. rewrite Hg. eauto.
    + destruct (gather_pending_can_move s Hinv Hg) as (e & s1 & Hstep).
      pose proof (step_remaining _ _ _ Hstep). lia.
  - destruct (Sched.gather s) as [out|] eqn:Hg.
    + exists [], s. rewrite Hg. eauto.
    + destruct (gather_pending_can_move s Hinv Hg) as (e & s1 & Hstep).
      pose proof (step_remaining _ _ _ Hstep) as Hrem.
      destruct (IH s1) as (sched & s' & Hrun & Hready).
      * eapply step_inv; eauto.
      * lia.
      * exists (e :: sched), s'. simpl. rewrite Hstep. auto.
Qed.
End ParallelProofs.



(** Two schedules of the same three prompts, finishing in opposite orders,
    give the same list: Failed, Timeout, Success. *)
Example invoke_parallel_two_schedules :
  let statuses sched :=
    match Sched.invoke_parallel orchestrator three_prompts three_worlds 2 sched with
    | Some (Os.Return rs) => Some (status <$> rs)
    | _ => None
    end in
  statuses [Sched.Acquire 0; Sched.Acquire 1; Sched.Finish 0; Sched.Acquire 2;
            Sched.Finish 1; Sched.Finish 2]%nat
  = Some [FAILED; TIMEOUT; SUCCESS]
  /\ statuses [Sched.Acquire 2; Sched.Finish 2; Sched.Acquire 1; Sched.Acquire 0;
               Sched.Finish 1; Sched.Finish 0]%nat
     = Some [FAILED; TIMEOUT; SUCCESS].
Proof. split; vm_compute; reflexivity. Qed.

(** With no permit at all every task waits for ever: the first schedule
    that stops is the empty one, and [gather] is not ready. *)
Example invoke_parallel_cap_zero_stuck :
  Sched.gather (Sched.init three_prompts 0) = None
  /\ forall e, Sched.step orchestrator three_prompts three_worlds e
                 (Sched.init three_prompts 0) = None.
Proof.
  split; [reflexivity|].
  intros [i | i]; simpl.
  - destruct i as [|[|[|i]]]; reflexivity.
  - destruct i as [|[|[|i]]]; reflexivity.
Qed.

(** A child that cannot be started is outside C3: its [invoke_async] raises
    [OSError] instead of returning a result, and [gather] passes that on. *)
Example invoke_parallel_spawn_error :
  Sched.invoke_parallel orchestrator ["A"; "B"]
    [Os.fresh child_prints_4 0; Os.fresh child_missing 0] 2
    [Sched.Acquire 0; Sched.Acquire 1; Sched.Finish 1]%nat
  = Some (Os.Raise Os.OSError).
Proof. vm_compute. reflexivity. Qed.

(** C10.  A result of [invoke_sync] or [invoke_async] never has the fallback
    flag set and its status is Success, Failed or Timeout; it names the tool
    that was asked for, and the one process created in the invocation ran
    the command built for that tool: nothing is started after a failure or
    a timeout.  The same holds for every result in a list returned by
    [invoke_parallel], whose tool is the primary one. *)
Theorem fallback_never_used :
  (forall (self : CLIOrchestrator) (prompt : string) (asked : option string)
          (timeout : option Z) (working_dir : option Py.StrOrPath)
          (allowed_tools : option (list string)) (w w' : Os.World)
          (r : CLIInvocationResult),
      invoke_sync self prompt asked timeout working_dir allowed_tools w = (Os.Return r, w')
      \/ invoke_async self prompt asked timeout working_dir allowed_tools w
         = (Os.Return r, w') ->
      single_dispatch self prompt asked allowed_tools w w' r)
  /\ (forall (self : CLIOrchestrator) (prompts : list string) (worlds : list Os.World)
             (max_concurrent : Z) (sched : list Sched.Event)
             (rs : list CLIInvocationResult),
        Sched.invoke_parallel self prompts worlds max_concurrent sched
        = Some (Os.Return rs) ->
        Forall (fun r => fallback_used r = false
                         /\ (status r = SUCCESS \/ status r = FAILED \/ status r = TIMEOUT)
                         /\ tool r = primary_cli self) rs).
Proof.
  split.
  - intros. eapply invoke_single_dispatch; eauto.
  - intros self prompts worlds N sched rs H.
    unfold Sched.invoke_parallel in H.
    destruct (N <? 0); [discriminate|].
    destruct (Sched.run self prompts worlds sched (Sched.init prompts N)) as [s|] eqn:Hrun;
      [|discriminate].
    pose proof (run_done self prompts worlds sched _ _ (init_done self prompts worlds N) Hrun)
      as Hdone.
    unfold Sched.gather in H. destruct (Sched.raised s); [discriminate|].
    destruct (mapM Sched.returned (Sched.tasks s)) as [rs'|] eqn:Hm; [|discriminate].
    injection H as ->. apply mapM_Some in Hm.
    apply Forall_lookup. intros i r Hr.
    destruct (Forall2_lookup_r _ _ _ _ _ Hm Hr) as (t & Ht & Hret).
    destruct t as [| |[r'|e]]; try discriminate. injection Hret as ->.
    specialize (Hdone i _ Ht). unfold Sched.invoke_with_limit in Hdone.
    destruct (prompts !! i) as [p|]; [|discriminate].
    destruct (worlds !! i) as [w|]; [|discriminate].
    injection Hdone as Hdone.
    destruct (invoke_async self p None None None None w) as [o w'] eqn:Hrun1.
    simpl in Hdone. subst o.
    destruct (invoke_single_dispatch self p None None None None w w' r (or_intror Hrun1))
      as (Hf & Hs & Ht' & _).
    auto.
Qed.

Lemma fallback_never_used_witness :
  (exists w' r,
     invoke_sync orchestrator "Run the build" None None None None (Os.fresh child_fails 0)
     = (Os.Return r, w')
     /\ status r = FAILED
     /\ single_dispatch orchestrator "Run the build" None None (Os.fresh child_fails 0) w' r)
  /\ (exists rs,
        Sched.invoke_parallel orchestrator three_prompts three_worlds 1
          [Sched.Acquire 1; Sched.Finish 1; Sched.Acquire 0; Sched.Finish 0;
           Sched.Acquire 2; Sched.Finish 2]%nat = Some (Os.Return rs)
        /\ Forall (fun r => fallback_used r = false
                            /\ (status r = SUCCESS \/ status r = FAILED \/ status r = TIMEOUT)
                            /\ tool r = "claude") rs).
Proof.
  split.
  - eexists _, _. split; [vm_compute; reflexivity|]. split; [reflexivity|].
    apply (proj1 fallback_never_used orchestrator "Run the build" None None None None).
    left. vm_compute. reflexivity.
  - eexists. split; [vm_compute; reflexivity|].
    apply (proj2 fallback_never_used orchestrator three_prompts three_worlds 1
             [Sched.Acquire 1; Sched.Finish 1; Sched.Acquire 0; Sched.Finish 0;
              Sched.Acquire 2; Sched.Finish 2]%nat).
    vm_compute. reflexivity.
Defined.

(** * Further properties of the code *)

(** ** The argument vector in full *)

Lemma extend_each_concat {A} (flag : string) (f : A -> string) (xs : list A) :
  forall cmd : list string,
    Py.extend_each flag f xs cmd = cmd ++ concat ((fun x => [flag; f x]) <$> xs).
Proof.
  unfold Py.extend_each.
  induction xs as [|x xs IH]; intros cmd; simpl.
  - rewrite app_nil_r. reflexivity.
  - rewrite IH. unfold Py.extend. rewrite <- app_assoc. reflexivity.
Qed.

Lemma if_list_extend_each {A} (flag : string) (f : A -> string)
    (xs : option (list A)) (cmd : list string) :
  Py.if_list xs (fun l => Py.extend_each flag f l cmd) cmd
  = cmd ++ concat ((fun x => [flag; f x]) <$> default [] xs).
Proof.
  destruct xs as [[|x l]|]; simpl; rewrite ?app_nil_r; try reflexivity.
  apply (extend_each_concat flag f (x :: l)).
Qed.

Lemma if_str_extend (flag : string) (v : option string) (cmd : list string) :
  Py.if_str v (fun s => Py.extend cmd [flag; s]) cmd
  = cmd ++ Py.if_str v (fun s => [flag; s]) [].
Proof.
  destruct v as [[|c s]|]; simpl; rewrite ?app_nil_r; reflexivity.
Qed.

(** X2.  On the primary path the argument vector is, in this order: the binary
    claude; --model and the model when one is given; --settings and the
    settings when given; --add-dir before each directory; --allowedTools
    before each tool; then -p, followed by the prompt unless sandbox mode
    sends it on standard input. *)
Theorem build_command_primary_shape :
  forall (tool prompt : string) (model : option string)
         (allowed_tools : option (list string))
         (add_dirs : option (list Py.StrOrPath))
         (settings_json : option string) (enable_sandbox : bool),
    tool <> "opencode" ->
    build_command tool prompt model allowed_tools add_dirs settings_json enable_sandbox
    = (["claude"]
       ++ Py.if_str model (fun m => ["--model"; m]) []
       ++ Py.if_str settings_json (fun s => ["--settings"; s]) []
       ++ concat ((fun d => ["--add-dir"; Py.str d]) <$> default [] add_dirs)
       ++ concat ((fun t => ["--allowedTools"; t]) <$> default [] allowed_tools)
       ++ (if enable_sandbox then ["-p"] else ["-p"; prompt]),
       if enable_sandbox
       then Some (String.append "/sandbox" (String nl prompt))
       else None).
Proof.
  intros tool prompt model allowed_tools add_dirs settings_json sandbox Htool.
  apply String.eqb_neq in Htool.
  unfold build_command. rewrite Htool. cbv zeta.
  rewrite (if_list_extend_each "--allowedTools" id).
  rewrite (if_list_extend_each "--add-dir" Py.str).
  rewrite !if_str_extend.
  unfold Py.append, Py.extend.
  destruct sandbox; rewrite <- !app_assoc; reflexivity.
Qed.

Lemma build_command_primary_shape_witness :
  build_command "claude" "Fix the bug" (Some "opus") (Some ["Read"; "Bash"])
    (Some [Py.AStr "/data"; Py.APath "/srv"]) (Some "{}") false
  = (["claude"; "--model"; "opus"; "--settings"; "{}"; "--add-dir"; "/data";
      "--add-dir"; "/srv"; "--allowedTools"; "Read"; "--allowedTools"; "Bash";
      "-p"; "Fix the bug"], None).
Proof.
  apply (build_command_primary_shape "claude" "Fix the bug" (Some "opus")
           (Some ["Read"; "Bash"]) (Some [Py.AStr "/data"; Py.APath "/srv"])
           (Some "{}") false).
  discriminate.
Defined.

(** ** The two invokers *)

Lemma invoke_outcomes_agree self prompt tool timeout working_dir allowed_tools w :
  fst (invoke_sync self prompt tool timeout working_dir allowed_tools w)
  = fst (invoke_async self prompt tool timeout working_dir allowed_tools w).
Proof.
  invoke_cases w; try reflexivity.
  rewrite !str_or_empty.
  case_bool_decide as Hrc.
  - injection Hrc as ->. reflexivity.
  - destruct (Os.exit_code (Os.child w) =? 0) eqn:E; [|reflexivity].
    apply Z.eqb_eq in E. rewrite E in Hrc. contradiction.
Qed.

Lemma working_dir_passed (working_dir : option Py.StrOrPath) :
  working_dir <> Some (Py.AStr EmptyString) ->
  Py.str <$> working_dir = Py.str_if_truthy working_dir.
Proof.
  intros H. destruct working_dir as [[[|c s]|p]|]; try reflexivity. contradiction.
Qed.

Lemma invoke_spawned_agree self prompt tool timeout working_dir allowed_tools w :
  working_dir <> Some (Py.AStr EmptyString) ->
  Os.spawned (snd (invoke_sync self prompt tool timeout working_dir allowed_tools w))
  = Os.spawned (snd (invoke_async self prompt tool timeout working_dir allowed_tools w)).
Proof.
  intros Hwd. apply working_dir_passed in Hwd.
  invoke_cases w; try reflexivity.
  - rewrite Hwd. destruct (Os.exit_code (Os.child w) =? 0); case_bool_decide; reflexivity.
  - rewrite Hwd. reflexivity.
Qed.





(** X5.  The command of a result, by the tool in force: for opencode, the
    fallback form with the prompt alone; for claude, the binary, then
    --allowedTools before each allowed tool (the default list when the caller
    gives none or an empty one), then -p and the prompt; for any other tool
    name, the claude binary with -p and the prompt and no allowed tool. *)
Theorem invoke_command_by_tool :
  forall (self : CLIOrchestrator) (prompt : string) (asked : option string)
         (timeout : option Z) (working_dir : option Py.StrOrPath)
         (allowed_tools : option (list string)) (w w' : Os.World)
         (r : CLIInvocationResult),
    invoke_sync self prompt asked timeout working_dir allowed_tools w = (Os.Return r, w')
    \/ invoke_async self prompt asked timeout working_dir allowed_tools w
       = (Os.Return r, w') ->
    command r
    = if String.eqb (tool r) "opencode" then ["opencode"; "run"; prompt]
      else if String.eqb (tool r) "claude" then
        ["claude"]
        ++ concat ((fun t => ["--allowedTools"; t])
                     <$> Py.or_list allowed_tools DEFAULT_ALLOWED_TOOLS)
        ++ ["-p"; prompt]
      else ["claude"; "-p"; prompt].
Proof.
  intros self prompt asked timeout working_dir allowed_tools w w' r H.
  destruct (invoke_single_dispatch self prompt asked timeout working_dir
              allowed_tools w w' r H) as (_ & _ & Htool & Hcmd & _).
  rewrite Hcmd, Htool. clear.
  set (t := Py.or_str asked (primary_cli self)).
  unfold build_command.
  destruct (String.eqb t "opencode") eqn:Eo; [reflexivity|].
  cbv zeta. cbn [Py.if_str Py.if_list].
  rewrite (if_list_extend_each "--allowedTools" id).
  destruct (String.eqb t "claude"); cbn [fst default]; unfold Py.extend.
  - rewrite <- app_assoc. reflexivity.
  - reflexivity.
Qed.

Lemma invoke_command_by_tool_witness :
  exists r : CLIInvocationResult,
    fst (invoke_async orchestrator "Fix the bug" (Some "claude-next") None None
           (Some ["Read"]) (Os.fresh child_prints_4 0)) = Os.Return r
    /\ tool r = "claude-next"
    /\ command r = ["claude"; "-p"; "Fix the bug"].
Proof.
  eexists. split; [vm_compute; reflexivity|]. split; [reflexivity|].
  apply (invoke_command_by_tool orchestrator "Fix the bug" (Some "claude-next") None
           None (Some ["Read"]) (Os.fresh child_prints_4 0)
           (snd (invoke_async orchestrator "Fix the bug" (Some "claude-next") None None
                   (Some ["Read"]) (Os.fresh child_prints_4 0)))).
  right. vm_compute. reflexivity.
Defined.

(** Arguments that are falsy in Python stand for the defaults: an empty tool
    name for the primary tool, a timeout of 0 for the default timeout, an
    empty list of allowed tools for the default list.  In particular a
    timeout of 0 neither disables the timeout nor expires at once, and the
    claude tool cannot be run with no tool pre-approved. *)
Remark invoke_falsy_arguments_are_defaults :
  forall (self : CLIOrchestrator) (prompt : string)
         (working_dir : option Py.StrOrPath) (w : Os.World),
    invoke_sync self prompt (Some EmptyString) (Some 0) working_dir (Some []) w
    = invoke_sync self prompt None None working_dir None w
    /\ invoke_async self prompt (Some EmptyString) (Some 0) working_dir (Some []) w
       = invoke_async self prompt None None working_dir None w.
Proof. intros. split; reflexivity. Qed.

(** X6.  The one process of an invocation is created with the command of the
    result, without a pipe on its standard input, and nothing is ever written
    to it: the invokers never use sandbox mode. [invoke_sync] passes the
    working directory on as it is; [invoke_async] passes none when it is an
    empty string. *)
Theorem invoke_process_creation :
  forall (self : CLIOrchestrator) (prompt : string) (asked : option string)
         (timeout : option Z) (working_dir : option Py.StrOrPath)
         (allowed_tools : option (list string)) (w w' : Os.World)
         (r : CLIInvocationResult),
    (invoke_sync self prompt asked timeout working_dir allowed_tools w = (Os.Return r, w') ->
     Os.spawned w'
     = Os.spawned w ++ [{| Os.argv := command r; Os.cwd := Py.str <$> working_dir;
                           Os.stdin_piped := false |}]
     /\ Os.stdin_sent w' = Os.stdin_sent w
     /\ Os.stdin_closed w' = Os.stdin_closed w)
    /\ (invoke_async self prompt asked timeout working_dir allowed_tools w
        = (Os.Return r, w') ->
        Os.spawned w'
        = Os.spawned w ++ [{| Os.argv := command r;
                              Os.cwd := Py.str_if_truthy working_dir;
                              Os.stdin_piped := false |}]
        /\ Os.stdin_sent w' = Os.stdin_sent w
        /\ Os.stdin_closed w' = Os.stdin_closed w).
Proof.
  intros self prompt asked timeout working_dir allowed_tools w w' r. split; intros H.
  - invoke_cases w; try discriminate.
    + destruct (Os.exit_code (Os.child w) =? 0);
        inversion H; subst; simpl; auto.
    + inversion H; subst; simpl; auto.
  - invoke_cases w; try discriminate.
    + case_bool_decide; inversion H; subst; simpl; auto.
    + inversion H; subst; simpl; auto.
Qed.

Lemma invoke_process_creation_witness :
  exists r : CLIInvocationResult,
    fst (invoke_async orchestrator "Run the build" (Some "opencode") None
           (Some (Py.AStr EmptyString)) None (Os.fresh child_prints_4 0)) = Os.Return r
    /\ Os.spawned
         (snd (invoke_async orchestrator "Run the build" (Some "opencode") None
                 (Some (Py.AStr EmptyString)) None (Os.fresh child_prints_4 0)))
       = [] ++ [{| Os.argv := command r; Os.cwd := None; Os.stdin_piped := false |}]
    /\ Os.stdin_sent
         (snd (invoke_async orchestrator "Run the build" (Some "opencode") None
                 (Some (Py.AStr EmptyString)) None (Os.fresh child_prints_4 0)))
       = None
    /\ Os.stdin_closed
         (snd (invoke_async orchestrator "Run the build" (Some "opencode") None
                 (Some (Py.AStr EmptyString)) None (Os.fresh child_prints_4 0)))
       = false.
Proof.
  eexists. split; [vm_compute; reflexivity|].
  apply (proj2 (invoke_process_creation orchestrator "Run the build" (Some "opencode") None
                  (Some (Py.AStr EmptyString)) None (Os.fresh child_prints_4 0)
                  (snd (invoke_async orchestrator "Run the build" (Some "opencode") None
                          (Some (Py.AStr EmptyString)) None (Os.fresh child_prints_4 0)))
                  _)).
  vm_compute. reflexivity.
Defined.

(** ** The settings document *)

Section Settings.
Import Json.

Lemma codes_scalar (s : string) : forallb is_scalar (codes s) = true.
Proof.
  unfold codes. induction s as [|c s IH]; [reflexivity|].
  cbn [list_ascii_of_string fmap list_fmap forallb]. 
  change (forallb is_scalar (N_of_ascii <$> list_ascii_of_string s) = true) in IH.
  rewrite IH, andb_true_r.
  unfold is_scalar. apply orb_true_iff. left. apply N.ltb_lt.
  pose proof (N_ascii_bounded c). lia.
Qed.

Lemma texts_well_formed (ds : list Py.StrOrPath) :
  forallb well_formed ((fun d => py_text (Py.str d)) <$> ds) = true.
Proof.
  induction ds as [|d ds IH]; [reflexivity|].
  cbn [fmap list_fmap forallb]. 
  change (forallb well_formed ((fun d => py_text (Py.str d)) <$> ds) = true) in IH.
  rewrite IH, andb_true_r. apply codes_scalar.
Qed.

Lemma settings_dict_well_formed hook dirs :
  well_formed (settings_dict hook dirs) = true.
Proof.
  unfold settings_dict.
  destruct hook as [[[|] path]|]; destruct dirs as [[|d ds]|];
    cbn [hook_exists hook_absolute Py.if_list];
    rewrite ?well_formed_obj;
    repeat (apply andb_true_intro; split); try reflexivity;
    cbn; rewrite ?codes_scalar, ?texts_well_formed; try reflexivity.
  all: pose proof (codes_scalar (Py.str d)) as Hd; unfold codes in Hd;
    rewrite ?Hd; reflexivity.
Qed.
End Settings.

Lemma extract_of_loads (output : string) (v : Json.value) :
  Json.loads output = Some v -> extract_json_from_output output = v.
Proof.
  intros H. unfold extract_json_from_output.
  destruct output as [|c output].
  - rewrite loads_empty in H. discriminate.
  - cbn [Py.str_falsy]. rewrite H. reflexivity.
Qed.

Lemma dumps_obj_nonempty (items : list (list N * Json.value)) :
  exists r, Json.dumps (Json.Obj items) = String "{" r.
Proof. destruct items as [|[k v] l]; eexists; reflexivity. Qed.

(** X7.  The settings document is always valid JSON: [json.loads] reads it
    back as the dictionary it was written from, and so does the extractor,
    whatever the hook path and the directories are. *)
Theorem settings_json_reads_back :
  forall (hook_script : option HookPath) (additional_dirs : option (list Py.StrOrPath)),
    Json.loads (generate_settings_json hook_script additional_dirs)
    = Some (settings_dict hook_script additional_dirs)
    /\ extract_json_from_output (generate_settings_json hook_script additional_dirs)
       = settings_dict hook_script additional_dirs.
Proof.
  intros hook dirs.
  assert (H : Json.loads (generate_settings_json hook dirs) = Some (settings_dict hook dirs))
    by apply loads_dumps, settings_dict_well_formed.
  split; [exact H|]. apply extract_of_loads, H.
Qed.


(** X8.  A hook script that does not exist is ignored, as is an empty list of
    directories: the document is then the one written for no hook, or for no
    directories. It is the empty object exactly when there is neither a usable
    hook nor a directory. *)
Theorem settings_json_empty_iff :
  forall (hook_script : option HookPath) (additional_dirs : option (list Py.StrOrPath)),
    (hook_usable hook_script = false ->
     generate_settings_json hook_script additional_dirs
     = generate_settings_json None additional_dirs)
    /\ (dirs_given additional_dirs = false ->
        generate_settings_json hook_script additional_dirs
        = generate_settings_json hook_script None)
    /\ (generate_settings_json hook_script additional_dirs = "{}"
        <-> hook_usable hook_script = false /\ dirs_given additional_dirs = false).
Proof.
  intros hook dirs. repeat split.
  - destruct hook as [[[|] path]|]; [discriminate|reflexivity|reflexivity].
  - destruct dirs as [[|d ds]|]; [reflexivity|discriminate|reflexivity].
  - destruct hook as [[[|] path]|]; [|reflexivity|reflexivity].
    destruct dirs as [[|d ds]|]; discriminate.
  - destruct dirs as [[|d ds]|]; [reflexivity| |reflexivity].
    destruct hook as [[[|] path]|]; discriminate.
  - intros [Hh Hd].
    destruct hook as [[[|] path]|]; try discriminate;
      destruct dirs as [[|d ds]|]; try discriminate; reflexivity.
Qed.

Lemma settings_json_empty_iff_witness :
  generate_settings_json (Some {| hook_exists := false; hook_absolute := "/opt/hook.sh" |})
    (Some [Py.AStr "/data"])
  = generate_settings_json None (Some [Py.AStr "/data"])
  /\ generate_settings_json (Some {| hook_exists := false; hook_absolute := "/opt/hook.sh" |})
       (Some []) = "{}".
Proof.
  split.
  - apply (proj1 (settings_json_empty_iff
                    (Some {| hook_exists := false; hook_absolute := "/opt/hook.sh" |})
                    (Some [Py.AStr "/data"]))).
    reflexivity.
  - apply (proj2 (proj2 (settings_json_empty_iff
                    (Some {| hook_exists := false; hook_absolute := "/opt/hook.sh" |})
                    (Some [])))).
    split; reflexivity.
Defined.

(** X9.  Given to [build_command] for the primary tool, the settings document
    is never dropped: it is not empty, so the argument vector has --settings
    followed by the document as one argument, right after the model flags, and
    that argument reads back as the settings. *)
Theorem build_command_carries_settings :
  forall (tool prompt : string) (model : option string)
         (allowed_tools : option (list string))
         (add_dirs : option (list Py.StrOrPath)) (enable_sandbox : bool)
         (hook_script : option HookPath) (additional_dirs : option (list Py.StrOrPath)),
    tool <> "opencode" ->
    exists after : list string,
      fst (build_command tool prompt model allowed_tools add_dirs
             (Some (generate_settings_json hook_script additional_dirs)) enable_sandbox)
      = ["claude"] ++ Py.if_str model (fun m => ["--model"; m]) []
        ++ ["--settings"; generate_settings_json hook_script additional_dirs] ++ after
      /\ Json.loads (generate_settings_json hook_script additional_dirs)
         = Some (settings_dict hook_script additional_dirs).
Proof.
  intros tool prompt model allowed_tools add_dirs sandbox hook dirs Htool.
  apply String.eqb_neq in Htool.
  exists (concat ((fun d => ["--add-dir"; Py.str d]) <$> default [] add_dirs)
          ++ concat ((fun t => ["--allowedTools"; t]) <$> default [] allowed_tools)
          ++ (if sandbox then ["-p"] else ["-p"; prompt])).
  split; [|apply loads_dumps, settings_dict_well_formed].
  unfold build_command. rewrite Htool. cbv zeta.
  rewrite (if_list_extend_each "--allowedTools" id).
  rewrite (if_list_extend_each "--add-dir" Py.str).
  rewrite !if_str_extend.
  assert (Hne : Py.if_str (Some (generate_settings_json hook dirs))
                  (fun s => ["--settings"; s]) []
                = ["--settings"; generate_settings_json hook dirs]).
  { unfold generate_settings_json, settings_dict.
    match goal with
    | |- context [Json.dumps (Json.Obj ?items)] =>
        destruct (dumps_obj_nonempty items) as [r ->]
    end. reflexivity. }
  rewrite Hne. unfold Py.append, Py.extend.
  destruct sandbox; cbn [fst]; rewrite <- !app_assoc; reflexivity.
Qed.

Lemma build_command_carries_settings_witness :
  exists after : list string,
    fst (build_command "claude" "Fix the bug" None None None
           (Some (generate_settings_json None (Some [Py.AStr "/data"]))) false)
    = ["claude"] ++ Py.if_str None (fun m => ["--model"; m]) []
      ++ ["--settings"; generate_settings_json None (Some [Py.AStr "/data"])] ++ after
    /\ Json.loads (generate_settings_json None (Some [Py.AStr "/data"]))
       = Some (settings_dict None (Some [Py.AStr "/data"])).
Proof.
  apply (build_command_carries_settings "claude" "Fix the bug" None None None false
           None (Some [Py.AStr "/data"])).
  discriminate.
Defined.

(** ** Parallel dispatch: the cap, and what ends a run *)

Section ParallelExtras.
Variable self : CLIOrchestrator.
Variable prompts : list string.
Variable worlds : list Os.World.

Local Abbreviation step := (Sched.step self prompts worlds).
Local Abbreviation run := (Sched.run self prompts worlds).

Lemma step_permits e s s' :
  step e s = Some s' ->
  0 <= Sched.permits s ->
  0 <= Sched.permits s'
  /\ Sched.permits s' + Z.of_nat (Sched.holding s')
     = Sched.permits s + Z.of_nat (Sched.holding s)
  /\ length (Sched.tasks s') = length (Sched.tasks s)
  /\ ((forall e', Sched.raised s = Some e' -> e' = Os.OSError) ->
      (forall e', Sched.raised s' = Some e' -> e' = Os.OSError)).
Proof.
  intros Hstep Hp. destruct e as [i | i]; simpl in Hstep.
  - destruct (Sched.tasks s !! i) as [[| |o]|] eqn:Hi; try discriminate.
    destruct (0 <? Sched.permits s) eqn:Hpos; [|discriminate].
    apply Z.ltb_lt in Hpos.
    injection Hstep as <-. unfold Sched.holding. simpl.
    pose proof (sum_list_with_insert Sched.held _ i Sched.Holding _ Hi) as Hs.
    simpl in Hs. rewrite length_insert. repeat split; auto; lia.
  - destruct (Sched.tasks s !! i) as [[| |o']|] eqn:Hi; try discriminate.
    destruct (Sched.invoke_with_limit self prompts worlds i) as [o|] eqn:Ho;
      [|discriminate].
    injection Hstep as <-. unfold Sched.holding. simpl.
    pose proof (sum_list_with_insert Sched.held _ i (Sched.Done o) _ Hi) as Hs.
    simpl in Hs. rewrite length_insert. repeat split; auto; try lia.
    intros Hraised e' He'.
    destruct (Sched.raised s) as [e0|] eqn:Hr; simpl in He'.
    + injection He' as <-. apply Hraised. reflexivity.
    + destruct o as [r|e1]; [discriminate|]. injection He' as <-.
      unfold Sched.invoke_with_limit in Ho.
      destruct (prompts !! i) as [p|]; [|discriminate].
      destruct (worlds !! i) as [w|]; [|discriminate].
      injection Ho as Ho.
      destruct (Os.spawnable (Os.child w)) eqn:Hsp.
      * destruct (proj1 (invoke_returns_iff_spawnable self p None None None None w) Hsp)
          as [_ (r & w' & Hr')].
        rewrite Hr' in Ho. discriminate.
      * destruct (proj2 (invoke_returns_iff_spawnable self p None None None None w) Hsp)
          as [_ Hr'].
        rewrite Hr' in Ho. simpl in Ho. congruence.
Qed.

Lemma run_permits sched : forall s s',
  run sched s = Some s' ->
  0 <= Sched.permits s ->
  (forall e', Sched.raised s = Some e' -> e' = Os.OSError) ->
  0 <= Sched.permits s'
  /\ Sched.permits s' + Z.of_nat (Sched.holding s')
     = Sched.permits s + Z.of_nat (Sched.holding s)
  /\ length (Sched.tasks s') = length (Sched.tasks s)
  /\ (forall e', Sched.raised s' = Some e' -> e' = Os.OSError).
Proof.
  induction sched as [|e sched IH]; intros s s' Hrun Hp Hr; simpl in Hrun.
  - injection Hrun as <-. auto.
  - destruct (step e s) as [s1|] eqn:Hstep; [|discriminate].
    destruct (step_permits _ _ _ Hstep Hp) as (Hp1 & Hsum1 & Hlen1 & Hr1).
    destruct (IH _ _ Hrun Hp1 (Hr1 Hr)) as (Hp' & Hsum' & Hlen' & Hr').
    repeat split; auto; congruence.
Qed.

Lemma init_holding N : Sched.holding (Sched.init prompts N) = 0%nat.
Proof. unfold Sched.holding, Sched.init. simpl. apply queued_hold_nothing. Qed.

Lemma init_stuck_without_permits N e :
  N <= 0 -> step e (Sched.init prompts N) = None.
Proof.
  intros HN. destruct e as [i | i]; simpl.
  - rewrite list_lookup_fmap. destruct (prompts !! i); simpl; [|reflexivity].
    destruct (0 <? N) eqn:E; [apply Z.ltb_lt in E; lia|reflexivity].
  - rewrite list_lookup_fmap. destruct (prompts !! i); reflexivity.
Qed.
End ParallelExtras.

(** X10.  The cap is kept: along every schedule the number of invocations that
    hold a permit never exceeds [max_concurrent], and the permits never run
    below zero. *)
Theorem invoke_parallel_cap_respected :
  forall (self : CLIOrchestrator) (prompts : list string) (worlds : list Os.World)
         (max_concurrent : Z) (sched : list Sched.Event) (s : Sched.State),
    0 <= max_concurrent ->
    Sched.run self prompts worlds sched (Sched.init prompts max_concurrent) = Some s ->
    0 <= Sched.permits s
    /\ Z.of_nat (Sched.holding s) <= max_concurrent
    /\ Sched.permits s + Z.of_nat (Sched.holding s) = max_concurrent.
Proof.
  intros self prompts worlds N sched s HN Hrun.
  destruct (run_permits self prompts worlds sched _ _ Hrun HN)
    as (Hp & Hsum & _); [discriminate|].
  rewrite init_holding in Hsum. simpl in Hsum. repeat split; lia.
Qed.

Lemma invoke_parallel_cap_respected_witness :
  let s := {| Sched.permits := 0;
              Sched.tasks := [Sched.Holding; Sched.Holding; Sched.Queued];
              Sched.raised := None |} in
  Sched.run orchestrator three_prompts three_worlds
    [Sched.Acquire 1; Sched.Acquire 0]%nat (Sched.init three_prompts 2) = Some s
  /\ 0 <= Sched.permits s
  /\ Z.of_nat (Sched.holding s) <= 2
  /\ Sched.permits s + Z.of_nat (Sched.holding s) = 2.
Proof.
  split; [reflexivity|].
  apply (invoke_parallel_cap_respected orchestrator three_prompts three_worlds 2
           [Sched.Acquire 1; Sched.Acquire 0]%nat).
  - lia.
  - reflexivity.
Defined.

(** X11.  With a cap of zero and at least one prompt [invoke_parallel] never
    returns: no task can ever take a permit, so no schedule gets [gather]
    ready. *)
Theorem invoke_parallel_cap_zero_never_returns :
  forall (self : CLIOrchestrator) (prompts : list string) (worlds : list Os.World)
         (sched : list Sched.Event),
    prompts <> [] ->
    Sched.invoke_parallel self prompts worlds 0 sched = None.
Proof.
  intros self prompts worlds sched Hne.
  unfold Sched.invoke_parallel. simpl.
  destruct sched as [|e sched]; simpl.
  - unfold Sched.gather. simpl.
    destruct prompts as [|p ps]; [contradiction|]. reflexivity.
  - rewrite init_stuck_without_permits by lia. reflexivity.
Qed.

Lemma invoke_parallel_cap_zero_never_returns_witness :
  Sched.invoke_parallel orchestrator three_prompts three_worlds 0
    [Sched.Acquire 0; Sched.Finish 0]%nat = None.
Proof.
  apply (invoke_parallel_cap_zero_never_returns orchestrator three_prompts three_worlds).
  discriminate.
Defined.



Lemma returned_hold_nothing (ts : list Sched.Task) (rs : list CLIInvocationResult) :
  mapM Sched.returned ts = Some rs -> sum_list_with Sched.held ts = 0%nat.
Proof.
  intros H. apply mapM_Some in H.
  induction H as [|t r ts rs Hr _ IH]; [reflexivity|].
  cbn [sum_list_with]. rewrite IH.
  destruct t as [| |o]; try discriminate. reflexivity.
Qed.

(** X13.  When [invoke_parallel] returns its list every permit is back in the
    semaphore, whatever the schedule was and whether the invocations
    succeeded, failed or timed out: no permit leaks. *)
Theorem invoke_parallel_permits_returned :
  forall (self : CLIOrchestrator) (prompts : list string) (worlds : list Os.World)
         (max_concurrent : Z) (sched : list Sched.Event) (s : Sched.State)
         (rs : list CLIInvocationResult),
    0 <= max_concurrent ->
    Sched.run self prompts worlds sched (Sched.init prompts max_concurrent) = Some s ->
    Sched.gather s = Some (Os.Return rs) ->
    Sched.permits s = max_concurrent /\ Sched.holding s = 0%nat.
Proof.
  intros self prompts worlds N sched s rs HN Hrun Hg.
  destruct (run_permits self prompts worlds sched _ _ Hrun HN)
    as (_ & Hsum & _); [discriminate|].
  rewrite init_holding in Hsum. simpl in Hsum.
  unfold Sched.gather in Hg. destruct (Sched.raised s); [discriminate|].
  destruct (mapM Sched.returned (Sched.tasks s)) as [rs'|] eqn:Hm; [|discriminate].
  assert (Hh : Sched.holding s = 0%nat) by (eapply returned_hold_nothing, Hm).
  split; [lia|exact Hh].
Qed.

Lemma invoke_parallel_permits_returned_witness :
  exists (s : Sched.State) (rs : list CLIInvocationResult),
    Sched.run orchestrator three_prompts three_worlds
      [Sched.Acquire 0; Sched.Acquire 1; Sched.Finish 0; Sched.Acquire 2;
       Sched.Finish 1; Sched.Finish 2]%nat (Sched.init three_prompts 2) = Some s
    /\ Sched.gather s = Some (Os.Return rs)
    /\ status <$> rs = [FAILED; TIMEOUT; SUCCESS]
    /\ Sched.permits s = 2 /\ Sched.holding s = 0%nat.
Proof.
  eexists _, _. split; [vm_compute; reflexivity|].
  split; [vm_compute; reflexivity|]. split; [reflexivity|].
  eapply (invoke_parallel_permits_returned orchestrator three_prompts three_worlds 2
            [Sched.Acquire 0; Sched.Acquire 1; Sched.Finish 0; Sched.Acquire 2;
             Sched.Finish 1; Sched.Finish 2]%nat);
    [lia | vm_compute; reflexivity | vm_compute; reflexivity].
Defined.

(** ** The candidates of the extractor *)


Section Spans.
Variables o c : ascii.

Lemma after_last_none (s : string) : has_char c s = false -> after_last c s = None.
Proof.
  induction s as [|x r IH]; [reflexivity|]. cbn [has_char after_last].
  intros H. apply orb_false_iff in H. destruct H as [Hx Hr].
  rewrite (IH Hr), Hx. reflexivity.
Qed.

Lemma after_last_app (mid post : string) :
  has_char c post = false ->
  after_last c (String.append mid (String c post)) = Some post.
Proof.
  intros Hp. induction mid as [|x mid IH].
  - cbn [String.append after_last]. rewrite (after_last_none _ Hp), Ascii.eqb_refl.
    reflexivity.
  - cbn [String.append after_last]. rewrite IH. reflexivity.
Qed.

Lemma star_greedy_last {A} (f : string -> A) (s : string) :
  Re.star_greedy Re.any
    (fun s' => match s' with
               | String x r => if Ascii.eqb c x then Some (f r) else None
               | EmptyString => None
               end) s
  = match after_last c s with
    | Some t => Some (f t)
    | None => None
    end.
Proof.
  induction s as [|x r IH]; [reflexivity|].
  cbn [Re.star_greedy after_last Re.any]. rewrite IH.
  destruct (after_last c r); [reflexivity|].
  destruct (Ascii.eqb c x); reflexivity.
Qed.

Lemma match_at_span (x : ascii) (r : string) :
  Re.match_at (span_pattern o c) (String x r)
  = if Ascii.eqb o x then
      match after_last c r with
      | Some t => Some (Re.consumed (String x r) t, t)
      | None => None
      end
    else None.
Proof.
  unfold Re.match_at, span_pattern. cbn [Re.run].
  destruct (Ascii.eqb o x); [|reflexivity].
  apply (star_greedy_last (fun t => (Re.consumed (String x r) t, t))).
Qed.

Lemma findall_span_no_close (fuel : nat) : forall s : string,
  has_char c s = false -> Re.findall_from fuel (span_pattern o c) s = [].
Proof.
  induction fuel as [|fuel IH]; intros s Hs; [reflexivity|].
  cbn [Re.findall_from]. destruct s as [|x r]; [reflexivity|].
  cbn [has_char] in Hs. apply orb_false_iff in Hs. destruct Hs as [_ Hr].
  rewrite match_at_span, (after_last_none _ Hr).
  destruct (Ascii.eqb o x); apply IH, Hr.
Qed.

Lemma findall_span_no_open (fuel : nat) : forall s : string,
  has_char o s = false -> Re.findall_from fuel (span_pattern o c) s = [].
Proof.
  induction fuel as [|fuel IH]; intros s Hs; [reflexivity|].
  cbn [Re.findall_from]. destruct s as [|x r]; [reflexivity|].
  cbn [has_char] in Hs. apply orb_false_iff in Hs. destruct Hs as [Hx Hr].
  rewrite match_at_span, Hx. apply IH, Hr.
Qed.

Lemma substring_prefix (a b : string) :
  substring 0 (String.length a) (String.append a b) = a.
Proof.
  induction a as [|x a IH]; cbn.
  - destruct b; reflexivity.
  - rewrite IH. reflexivity.
Qed.

Lemma consumed_app (a b : string) : Re.consumed (String.append a b) b = a.
Proof.
  unfold Re.consumed. rewrite length_append.
  replace (String.length a + String.length b - String.length b)%nat
    with (String.length a) by lia.
  apply substring_prefix.
Qed.

Lemma findall_span_found (pre mid post : string) : forall fuel : nat,
  has_char o pre = false -> has_char c post = false ->
  (String.length pre < fuel)%nat ->
  Re.findall_from fuel (span_pattern o c)
    (String.append pre (String o (String.append mid (String c post))))
  = [String o (String.append mid (String c EmptyString))].
Proof.
  induction pre as [|x pre IH]; intros fuel Hpre Hpost Hfuel.
  - destruct fuel as [|fuel]; [cbn in Hfuel; lia|].
    cbn [String.append Re.findall_from].
    rewrite match_at_span, Ascii.eqb_refl, (after_last_app mid post Hpost).
    assert (Hcap : Re.consumed (String o (String.append mid (String c post))) post
                   = String o (String.append mid (String c EmptyString))).
    { rewrite <- (consumed_app (String o (String.append mid (String c EmptyString))) post).
      cbn [String.append]. rewrite append_assoc. reflexivity. }
    rewrite Hcap.
    assert (Hlen : (String.length post
                    <? String.length (String o (String.append mid (String c post))))%nat
                   = true).
    { apply Nat.ltb_lt. cbn [String.length]. rewrite length_append.
      cbn [String.length]. lia. }
    rewrite Hlen, (findall_span_no_close fuel post Hpost). reflexivity.
  - destruct fuel as [|fuel]; [cbn in Hfuel; lia|].
    cbn [has_char] in Hpre. apply orb_false_iff in Hpre. destruct Hpre as [Hx Hpre].
    cbn [String.append Re.findall_from].
    rewrite match_at_span, Hx.
    apply IH; auto. cbn [String.length] in Hfuel. lia.
Qed.
End Spans.

Lemma brace_is_span : brace_pattern = span_pattern "{" "}".
Proof. reflexivity. Qed.

Lemma bracket_is_span : bracket_pattern = span_pattern "[" "]".
Proof. reflexivity. Qed.

Lemma findall_span_text (o c : ascii) (pre mid post : string) :
  has_char o pre = false -> has_char c post = false ->
  Re.findall (span_pattern o c)
    (String.append pre (String o (String.append mid (String c post))))
  = [String o (String.append mid (String c EmptyString))].
Proof.
  intros Hpre Hpost. unfold Re.findall.
  apply findall_span_found; auto.
  rewrite length_append. cbn [String.length]. lia.
Qed.

(** X14.  The brace pattern and the bracket pattern are greedy: in a text with
    no opening delimiter before [pre] ends and no closing delimiter in [post],
    the only candidate runs from the first opening delimiter to the last
    closing one, whatever lies between them, other delimiters included. *)
Theorem findall_greedy_span :
  forall pre mid post : string,
    (has_char "{" pre = false -> has_char "}" post = false ->
     Re.findall brace_pattern
       (String.append pre (String "{" (String.append mid (String "}" post))))
     = [String "{" (String.append mid "}")])
    /\ (has_char "[" pre = false -> has_char "]" post = false ->
        Re.findall bracket_pattern
          (String.append pre (String "[" (String.append mid (String "]" post))))
        = [String "[" (String.append mid "]")]).
Proof.
  intros pre mid post. split; intros Hpre Hpost.
  - rewrite brace_is_span. apply findall_span_text; assumption.
  - rewrite bracket_is_span. apply findall_span_text; assumption.
Qed.

Lemma findall_greedy_span_witness :
  Re.findall brace_pattern
    (String.append "a: "
       (String "{" (String.append "x} and {y" (String "}" "."))))
  = ["{x} and {y}"]
  /\ Re.findall bracket_pattern
       (String.append "rows "
          (String "[" (String.append "1], [2" (String "]" " end"))))
     = ["[1], [2]"].
Proof.
  split.
  - apply (proj1 (findall_greedy_span "a: " "x} and {y" ".")); reflexivity.
  - apply (proj2 (findall_greedy_span "rows " "1], [2" " end")); reflexivity.
Defined.

(** ** What the extractor finds *)

Lemma match_at_fence_head (x : ascii) (r : string) :
  Ascii.eqb "`" x = false -> Re.match_at fence_pattern (String x r) = None.
Proof.
  intros H. unfold Re.match_at, fence_pattern. cbn [Re.run Re.lit]. rewrite H.
  reflexivity.
Qed.

Lemma findall_fence_no_backtick (fuel : nat) : forall s : string,
  has_char "`" s = false -> Re.findall_from fuel fence_pattern s = [].
Proof.
  induction fuel as [|fuel IH]; intros s Hs; [reflexivity|].
  cbn [Re.findall_from]. destruct s as [|x r]; [reflexivity|].
  cbn [has_char] in Hs. apply orb_false_iff in Hs. destruct Hs as [Hx Hr].
  rewrite (match_at_fence_head x r Hx). apply IH, Hr.
Qed.

Lemma findall_fence_skip (pre s : string) (fuel : nat) :
  has_char "`" pre = false ->
  Re.findall_from (String.length pre + fuel) fence_pattern (String.append pre s)
  = Re.findall_from fuel fence_pattern s.
Proof.
  induction pre as [|x pre IH]; intros Hpre; [reflexivity|].
  cbn [has_char] in Hpre. apply orb_false_iff in Hpre. destruct Hpre as [Hx Hpre].
  cbn [String.length String.append Nat.add Re.findall_from].
  rewrite (match_at_fence_head x _ Hx). apply IH, Hpre.
Qed.

(** The closing fence does not match inside a body without backticks. *)
Lemma fence_close_fails {A} (x : ascii) (b post : string) (cap : string)
    (k : string -> string -> option A) :
  has_char "`" b = false ->
  Re.run (Re.Seq (Re.Chr nl) (Re.lit "```"))
    (String x (String.append b (String nl (String.append "```" post)))) cap k = None.
Proof.
  intros Hb. cbn [Re.run Re.lit]. destruct (Ascii.eqb nl x); [|reflexivity].
  destruct b as [|y b]; [reflexivity|].
  cbn [has_char] in Hb. apply orb_false_iff in Hb. destruct Hb as [Hy _].
  cbn [String.append]. rewrite Hy. reflexivity.
Qed.

Lemma star_lazy_body {A} (f : string -> string) (k : string -> string -> option A)
    (b post : string) :
  has_char "`" b = false ->
  Re.star_lazy Re.any
    (fun s' => Re.run (Re.Seq (Re.Chr nl) (Re.lit "```")) s' (f s') k)
    (String.append b (String nl (String.append "```" post)))
  = match k post (f (String nl (String.append "```" post))) with
    | Some x => Some x
    | None =>
        Re.star_lazy Re.any
          (fun s' => Re.run (Re.Seq (Re.Chr nl) (Re.lit "```")) s' (f s') k)
          (String.append "```" post)
    end.
Proof.
  induction b as [|x b IH]; intros Hb.
  - cbn [String.append]. cbn [Re.star_lazy]. cbn [Re.run Re.lit].
    rewrite Ascii.eqb_refl. cbn [String.append]. rewrite !Ascii.eqb_refl.
    reflexivity.
  - cbn [has_char] in Hb. apply orb_false_iff in Hb. destruct Hb as [Hx Hb].
    cbn [String.append Re.star_lazy].
    rewrite (fence_close_fails x b post _ k Hb). cbn [Re.any].
    apply IH, Hb.
Qed.

Lemma space_not_backtick (x : ascii) : Re.is_space x = false -> Ascii.eqb nl x = false.
Proof.
  intros H. destruct (Ascii.eqb nl x) eqn:E; [|reflexivity].
  apply Ascii.eqb_eq in E. subst x. discriminate H.
Qed.

Lemma run_fence_tail (x : ascii) (b post cap : string) :
  Re.is_space x = false ->
  has_char "`" (String x b) = false ->
  Re.run
    (Re.Seq (Re.Star Re.is_space)
       (Re.Seq (Re.Chr nl)
          (Re.Seq (Re.Group (Re.StarLazy Re.any))
             (Re.Seq (Re.Chr nl) (Re.lit "```")))))
    (String nl (String.append (String x b) (String nl (String.append "```" post))))
    cap (fun rest cap' => Some (cap', rest))
  = Some (String x b, post).
Proof.
  intros Hx Hb.
  assert (Hnl : Ascii.eqb nl x = false) by apply space_not_backtick, Hx.
  cbn [Re.run]. cbn [Re.star_greedy String.append].
  change (Re.is_space nl) with true. cbv iota. rewrite Hx, Hnl.
  rewrite Ascii.eqb_refl.
  change (String x (String.append b (String nl (String.append "```" post))))
    with (String.append (String x b) (String nl (String.append "```" post))).
  refine (eq_trans
            (star_lazy_body
               (Re.consumed (String.append (String x b)
                               (String nl (String.append "```" post))))
               (fun rest cap' => Some (cap', rest)) (String x b) post Hb) _).
  rewrite consumed_app. reflexivity.
Qed.

Lemma match_at_fence (tag : string) (x : ascii) (b post : string) :
  tag = EmptyString \/ tag = "json" ->
  Re.is_space x = false ->
  has_char "`" (String x b) = false ->
  Re.match_at fence_pattern
    (String.append "```"
       (String.append tag
          (String nl (String.append (String x b)
                        (String nl (String.append "```" post))))))
  = Some (String x b, post).
Proof.
  intros Htag Hx Hb.
  pose proof (run_fence_tail x b post EmptyString Hx Hb) as Htail.
  unfold Re.match_at, fence_pattern.
  remember (Re.Seq (Re.Star Re.is_space) _) as tail_pattern eqn:Et.
  remember (String.append (String x b) _) as text eqn:Ex.
  cbn [Re.run Re.lit String.append]. rewrite !Ascii.eqb_refl.
  destruct Htag as [-> | ->]; cbn [String.append].
  - change (Ascii.eqb "j" nl) with false. cbv iota. exact Htail.
  - rewrite !Ascii.eqb_refl, Htail. reflexivity.
Qed.

Lemma findall_fence_first (pre tag : string) (x : ascii) (b post : string) :
  tag = EmptyString \/ tag = "json" ->
  has_char "`" pre = false ->
  Re.is_space x = false ->
  has_char "`" (String x b) = false ->
  exists more : list string,
    Re.findall fence_pattern
      (String.append pre
         (String.append "```"
            (String.append tag
               (String nl (String.append (String x b)
                             (String nl (String.append "```" post)))))))
    = String x b :: more.
Proof.
  intros Htag Hpre Hx Hb.
  pose proof (match_at_fence tag x b post Htag Hx Hb) as Hm.
  remember (String.append "```" (String.append tag _)) as block eqn:Eb.
  assert (Hlen : (String.length post <? String.length block)%nat = true).
  { apply Nat.ltb_lt. subst block. rewrite !length_append. cbn [String.length].
    rewrite !length_append. cbn [String.length]. rewrite !length_append. lia. }
  unfold Re.findall. rewrite length_append.
  replace (S (String.length pre + String.length block))
    with (String.length pre + S (String.length block))%nat by lia.
  rewrite (findall_fence_skip pre block _ Hpre).
  cbn [Re.findall_from]. rewrite Hm, Hlen. eexists. reflexivity.
Qed.

Lemma extract_steps (output : string) :
  Json.loads output = None ->
  extract_json_from_output output
  = match first_loads Re.strip (Re.findall fence_pattern output) with
    | Some v => v
    | None =>
        match first_loads id (Re.findall brace_pattern output) with
        | Some v => v
        | None =>
            match first_loads id (Re.findall bracket_pattern output) with
            | Some v => v
            | None => Json.Null
            end
        end
    end.
Proof.
  intros H. unfold extract_json_from_output.
  destruct output as [|c output]; [reflexivity|].
  cbn [Py.str_falsy]. rewrite H. reflexivity.
Qed.





Lemma obj_more_end (kvs : list (list N * Json.value)) :
  exists m : string, Json.obj_more kvs = String.append m "}".
Proof.
  induction kvs as [|[k v] kvs [m IH]].
  - exists EmptyString. reflexivity.
  - cbn [Json.obj_more]. rewrite IH.
    exists (String.append ", " (String.append (Json.encode_string k)
              (String.append ": " (String.append (Json.dumps v) m)))).
    rewrite !append_assoc. reflexivity.
Qed.

Lemma arr_more_end (vs : list Json.value) :
  exists m : string, Json.arr_more vs = String.append m "]".
Proof.
  induction vs as [|v vs [m IH]].
  - exists EmptyString. reflexivity.
  - cbn [Json.arr_more]. rewrite IH.
    exists (String.append ", " (String.append (Json.dumps v) m)).
    rewrite !append_assoc. reflexivity.
Qed.

Lemma dumps_obj_span (items : list (list N * Json.value)) :
  exists mid : string,
    Json.dumps (Json.Obj items) = String "{" (String.append mid "}").
Proof.
  destruct items as [|[k v] kvs].
  - exists EmptyString. reflexivity.
  - rewrite dumps_obj. destruct (obj_more_end kvs) as [m ->].
    exists (String.append (Json.encode_string k)
              (String.append ": " (String.append (Json.dumps v) m))).
    rewrite !append_assoc. reflexivity.
Qed.

Lemma dumps_arr_span (items : list Json.value) :
  exists mid : string,
    Json.dumps (Json.Arr items) = String "[" (String.append mid "]").
Proof.
  destruct items as [|v vs].
  - exists EmptyString. reflexivity.
  - rewrite dumps_arr. destruct (arr_more_end vs) as [m ->].
    exists (String.append (Json.dumps v) m).
    rewrite !append_assoc. reflexivity.
Qed.

Lemma span_in_text (pre mid post : string) (o c : ascii) :
  String.append pre
    (String.append (String o (String.append mid (String c EmptyString))) post)
  = String.append pre (String o (String.append mid (String c post))).
Proof. cbn [String.append]. rewrite append_assoc. reflexivity. Qed.



